(** * gitvcl: reconciliation of remote VCL files into a git working copy

    A shallow embedding of [main.py].  The program talks to four outside
    worlds: the controller's HTTP API, the file system, a git repository
    and the logger.  Each of them is a component of an explicit [world]
    (or, for the API and the git remote, of a read-only [remote] snapshot)
    that the embedded functions thread through a small state-and-exception
    monad, so that what is left behind when a run aborts half way is part
    of the model.

    The file system map holds what is outside the git directory of the
    repository; the content of that directory is the repository state.
    The git operations act on the repository state, the file operations
    on the map, and a file operation that a name from the controller
    leads into the git directory ends the run of the model with
    [Unmodelled]: nothing is said about what the program does from
    there. *)

From Stdlib Require Import ZArith Lia Ascii String.
From Stdlib.Strings Require Import Byte.
From stdpp Require Import gmap strings list fin_maps finite pretty.

#[local] Set Warnings "-clear-no-such-hyp".

Abbreviation bytes := (list byte).

(* ===================================================================== *)
(** ** hashlib.sha256

    [hashlib.sha256().update(b).hexdigest()] is FIPS 180-4 SHA-256 printed
    as 64 lower-case hexadecimal digits.  Words are 32-bit integers kept in
    [Z] with the wrap-around written out. *)

Module Sha256.
Local Open Scope Z_scope.

Definition wrap32 (x : Z) : Z := x mod 2 ^ 32.
Definition add32 (x y : Z) : Z := wrap32 (x + y).
Definition not32 (x : Z) : Z := Z.lxor x 0xffffffff.
Definition rotr (n x : Z) : Z :=
  Z.lor (Z.shiftr x n) (wrap32 (Z.shiftl x (32 - n))).

Definition Ch (x y z : Z) : Z := Z.lxor (Z.land x y) (Z.land (not32 x) z).
Definition Maj (x y z : Z) : Z :=
  Z.lxor (Z.lxor (Z.land x y) (Z.land x z)) (Z.land y z).
Definition Sum0 (x : Z) : Z := Z.lxor (Z.lxor (rotr 2 x) (rotr 13 x)) (rotr 22 x).
Definition Sum1 (x : Z) : Z := Z.lxor (Z.lxor (rotr 6 x) (rotr 11 x)) (rotr 25 x).
Definition sig0 (x : Z) : Z := Z.lxor (Z.lxor (rotr 7 x) (rotr 18 x)) (Z.shiftr x 3).
Definition sig1 (x : Z) : Z := Z.lxor (Z.lxor (rotr 17 x) (rotr 19 x)) (Z.shiftr x 10).

(** The round constants are the first 32 bits of the fractional parts of
    the cube roots of the first 64 primes, the initial chaining words
    those of the square roots of the first 8 primes. *)
Fixpoint cube_root_bits (k : nat) (n r : Z) : Z :=
  match k with
  | O => r
  | S k' =>
      let r' := r + 2 ^ Z.of_nat k' in
      cube_root_bits k' n (if r' ^ 3 <=? n then r' else r)
  end.

Definition cube_root (n : Z) : Z := cube_root_bits 40 n 0.

Definition is_prime (p : Z) : bool :=
  forallb (fun d => negb (p mod d =? 0)) (Z.of_nat <$> seq 2 (Z.to_nat p - 2)).

Definition primes (count : nat) : list Z :=
  take count (List.filter is_prime (Z.of_nat <$> seq 2 310)).

Definition frac_cube_root (p : Z) : Z := wrap32 (cube_root (p * 2 ^ 96)).
Definition frac_sqrt (p : Z) : Z := wrap32 (Z.sqrt (p * 2 ^ 64)).

Definition K : list Z := Eval vm_compute in frac_cube_root <$> primes 64.

(** The eight chaining words. *)
Definition hstate : Type := Z * Z * Z * Z * Z * Z * Z * Z.

Definition H0 : hstate :=
  Eval vm_compute in
    (frac_sqrt 2, frac_sqrt 3, frac_sqrt 5, frac_sqrt 7,
     frac_sqrt 11, frac_sqrt 13, frac_sqrt 17, frac_sqrt 19).

(** Padding: a 1 bit, zero bits up to 56 modulo 64 bytes, then the
    message length in bits as a 64-bit big-endian integer. *)
Fixpoint be_bytes (n : nat) (x : Z) : list Z :=
  match n with
  | O => []
  | S k => be_bytes k (x / 256) ++ [x mod 256]
  end.

Definition pad (msg : list Z) : list Z :=
  let len := Z.of_nat (length msg) in
  msg ++ [0x80] ++ repeat 0 (Z.to_nat ((55 - len) mod 64)) ++ be_bytes 8 (8 * len).

Fixpoint chunks {A} (n fuel : nat) (l : list A) : list (list A) :=
  match fuel with
  | O => []
  | S f => match l with
           | [] => []
           | _ => take n l :: chunks n f (drop n l)
           end
  end.

Definition be_word (bs : list Z) : Z :=
  fold_left (fun acc b => acc * 256 + b) bs 0.

Definition block_words (blk : list Z) : list Z :=
  be_word <$> chunks 4 16 blk.

(** Message schedule, most recent word first. *)
Definition sched_step (r : list Z) : list Z :=
  add32 (add32 (add32 (sig1 (nth 1 r 0)) (nth 6 r 0)) (sig0 (nth 14 r 0))) (nth 15 r 0)
  :: r.

Definition schedule (ws : list Z) : list Z :=
  rev (Nat.iter 48 sched_step (rev ws)).

Definition round (s : hstate) (kw : Z * Z) : hstate :=
  let '(a, b, c, d, e, f, g, h) := s in
  let t1 := add32 (add32 (add32 (add32 h (Sum1 e)) (Ch e f g)) kw.1) kw.2 in
  let t2 := add32 (Sum0 a) (Maj a b c) in
  (add32 t1 t2, a, b, c, add32 d t1, e, f, g).

Definition compress (s : hstate) (blk : list Z) : hstate :=
  let '(a, b, c, d, e, f, g, h) :=
    fold_left round (zip K (schedule (block_words blk))) s in
  let '(a0, b0, c0, d0, e0, f0, g0, h0) := s in
  (add32 a0 a, add32 b0 b, add32 c0 c, add32 d0 d,
   add32 e0 e, add32 f0 f, add32 g0 g, add32 h0 h).

Definition digest_num (s : hstate) : Z :=
  let '(a, b, c, d, e, f, g, h) := s in
  ((((((a * 2^32 + b) * 2^32 + c) * 2^32 + d) * 2^32 + e) * 2^32 + f)
     * 2^32 + g) * 2^32 + h.

Definition byte_val (b : byte) : Z := Z.of_N (Byte.to_N b).

(** The digest as a 256-bit number. *)
Definition sha256 (msg : bytes) : Z :=
  let p := pad (byte_val <$> msg) in
  digest_num (fold_left compress (chunks 64 (length p) p) H0).

Definition hex_char (d : Z) : ascii :=
  nth (Z.to_nat d)
    ["0"; "1"; "2"; "3"; "4"; "5"; "6"; "7"; "8"; "9"; "a"; "b"; "c"; "d"; "e"; "f"]%char
    "0"%char.

Fixpoint hex_digits (n : nat) (x : Z) (acc : string) : string :=
  match n with
  | O => acc
  | S k => hex_digits k (x / 16) (String (hex_char (x mod 16)) acc)
  end.

Definition hexdigest (msg : bytes) : string := hex_digits 64 (sha256 msg) "".

End Sha256.



Definition byte_of_Z (x : Z) : byte :=
  default x00 (Byte.of_N (Z.to_N (x mod 256))).

Definition char_code (c : ascii) : Z := Z.of_N (N_of_ascii c).

(* ===================================================================== *)
(** ** base64.b64decode

    [b64decode(s)] on a [str]: the string is first encoded as ASCII (a
    [ValueError] when it holds a character above 0x7f), then decoded by
    [binascii.a2b_base64] in its lenient mode: characters outside the
    alphabet are skipped, a complete padding sequence ends the input, and
    a trailing partial quad raises [binascii.Error].  [None] stands for
    either exception (both are [ValueError]s). *)

Module Base64.
Local Open Scope Z_scope.

Definition value (c : ascii) : option Z :=
  let n := char_code c in
  if (65 <=? n) && (n <=? 90) then Some (n - 65)
  else if (97 <=? n) && (n <=? 122) then Some (n - 71)
  else if (48 <=? n) && (n <=? 57) then Some (n + 4)
  else if n =? 43 then Some 62
  else if n =? 47 then Some 63
  else None.

Fixpoint a2b (s : string) (quad_pos : nat) (leftchar : Z) (pads : nat)
    (out : bytes) : option bytes :=
  match s with
  | EmptyString => if decide (quad_pos = 0%nat) then Some (rev out) else None
  | String c rest =>
      if char_code c =? 61 then
        if decide (2 <= quad_pos)%nat then
          if decide (4 <= quad_pos + S pads)%nat then Some (rev out)
          else a2b rest quad_pos leftchar (S pads) out
        else a2b rest quad_pos leftchar pads out
      else
        match value c with
        | None => a2b rest quad_pos leftchar pads out
        | Some v =>
            match quad_pos with
            | 0%nat => a2b rest 1%nat v 0%nat out
            | 1%nat =>
                a2b rest 2%nat (Z.land v 0x0f) 0%nat
                    (byte_of_Z (Z.lor (Z.shiftl leftchar 2) (Z.shiftr v 4)) :: out)
            | 2%nat =>
                a2b rest 3%nat (Z.land v 0x03) 0%nat
                    (byte_of_Z (Z.lor (Z.shiftl leftchar 4) (Z.shiftr v 2)) :: out)
            | _ =>
                a2b rest 0%nat 0 0%nat
                    (byte_of_Z (Z.lor (Z.shiftl leftchar 6) v) :: out)
            end
        end
  end.

Definition is_ascii (s : string) : bool :=
  forallb (fun c => char_code c <? 128) (list_ascii_of_string s).

Definition b64decode (s : string) : option bytes :=
  if is_ascii s then a2b s 0%nat 0 0%nat [] else None.

End Base64.

(* ===================================================================== *)
(** ** The UTF-8 codec

    [bytes.decode('utf-8')] in strict mode gives the code points of a
    well-formed UTF-8 sequence and raises [UnicodeDecodeError] on overlong
    forms, surrogates, values above U+10FFFF and truncated sequences.  A
    Python [str] is modelled by its list of code points. *)

Module Utf8.
Local Open Scope Z_scope.

Abbreviation text := (list Z).

Definition within (lo hi x : Z) : bool := (lo <=? x) && (x <=? hi).
Definition cont (b : Z) : bool := within 0x80 0xbf b.
Definition low6 (b : Z) : Z := Z.land b 0x3f.

Fixpoint decode_vals (l : list Z) : option text :=
  match l with
  | [] => Some []
  | b0 :: r0 =>
      if b0 <? 0x80 then cons b0 <$> decode_vals r0
      else match r0 with
      | [] => None
      | b1 :: r1 =>
          if within 0xc2 0xdf b0 then
            if cont b1
            then cons (Z.lor (Z.shiftl (Z.land b0 0x1f) 6) (low6 b1)) <$> decode_vals r1
            else None
          else match r1 with
          | [] => None
          | b2 :: r2 =>
              if within 0xe0 0xef b0 then
                if within (if b0 =? 0xe0 then 0xa0 else 0x80)
                          (if b0 =? 0xed then 0x9f else 0xbf) b1 && cont b2
                then cons (Z.lor (Z.shiftl (Z.land b0 0x0f) 12)
                             (Z.lor (Z.shiftl (low6 b1) 6) (low6 b2)))
                       <$> decode_vals r2
                else None
              else match r2 with
              | [] => None
              | b3 :: r3 =>
                  if within 0xf0 0xf4 b0
                     && within (if b0 =? 0xf0 then 0x90 else 0x80)
                               (if b0 =? 0xf4 then 0x8f else 0xbf) b1
                     && cont b2 && cont b3
                  then cons (Z.lor (Z.shiftl (Z.land b0 0x07) 18)
                               (Z.lor (Z.shiftl (low6 b1) 12)
                                  (Z.lor (Z.shiftl (low6 b2) 6) (low6 b3))))
                         <$> decode_vals r3
                  else None
              end
          end
      end
  end.

Definition decode (b : bytes) : option text := decode_vals (Sha256.byte_val <$> b).

(** What a text-mode file object writes for one code point (UTF-8, the
    encoding of a file opened without [encoding=] on a UTF-8 locale; no
    newline translation on POSIX). *)
Definition encode_cp (c : Z) : list Z :=
  if c <? 0x80 then [c]
  else if c <? 0x800 then [Z.lor 0xc0 (Z.shiftr c 6); Z.lor 0x80 (low6 c)]
  else if c <? 0x10000 then
    [Z.lor 0xe0 (Z.shiftr c 12); Z.lor 0x80 (low6 (Z.shiftr c 6)); Z.lor 0x80 (low6 c)]
  else
    [Z.lor 0xf0 (Z.shiftr c 18); Z.lor 0x80 (low6 (Z.shiftr c 12));
     Z.lor 0x80 (low6 (Z.shiftr c 6)); Z.lor 0x80 (low6 c)].

Definition encode (t : text) : bytes := byte_of_Z <$> (t ≫= encode_cp).

End Utf8.

Definition bytes_of_string (s : string) : bytes :=
  (fun c => default x00 (Byte.of_N (N_of_ascii c))) <$> list_ascii_of_string s.

(* ===================================================================== *)
(** ** The outside world

    Paths.  A [path] is an absolute, resolved list of directory entry
    names; the file system maps paths to nodes.  [os.path.join(save_folder,
    name)] handed to [open], [os.path.isfile] or [os.remove] is looked up
    the POSIX way by [locate]: an absolute [name] discards [save_folder],
    the components of [name] are walked one by one from the starting
    directory, every directory passed through must exist, and [..] steps
    to the parent.  Nothing in between inspects the name. *)

Abbreviation path := (list string).

Inductive node : Type :=
  | Dir
  | File (content : bytes).

#[global] Instance byte_eq_dec : EqDecision byte := Byte.byte_eq_dec.

Definition is_dir (fs : gmap path node) (p : path) : bool :=
  match fs !! p with
  | Some Dir => true
  | _ => false
  end.

Fixpoint components (s : string) : list string :=
  match s with
  | EmptyString => [EmptyString]
  | String c r =>
      if Ascii.eqb c "/" then EmptyString :: components r
      else match components r with
           | h :: t => String c h :: t
           | [] => [String c EmptyString]
           end
  end.

Definition is_abs (s : string) : bool :=
  match s with
  | String c _ => Ascii.eqb c "/"
  | EmptyString => false
  end.

Definition step_dir (cur : path) (c : string) : path :=
  if decide (c = "" \/ c = ".") then cur
  else if decide (c = "..") then removelast cur
  else cur ++ [c].

Fixpoint walk (fs : gmap path node) (cur : path) (cs : list string) : option path :=
  match cs with
  | [] => Some cur
  | c :: rest =>
      if is_dir fs cur then walk fs (step_dir cur c) rest else None
  end.

Definition locate (fs : gmap path node) (save_folder : path) (name : string)
  : option path :=
  walk fs (if is_abs name then [] else save_folder) (components name).

(** A name that is a single directory entry. *)
Definition plain (n : string) : Prop :=
  n <> "" /\ n <> "." /\ n <> ".." /\ components n = [n].

#[global] Instance plain_dec n : Decision (plain n).
Proof. unfold plain. apply _. Defined.

Fixpoint strip_prefix (pre p : path) : option path :=
  match pre, p with
  | [], _ => Some p
  | a :: pre', b :: p' => if decide (a = b) then strip_prefix pre' p' else None
  | _ :: _, [] => None
  end.

(** [next(os.walk(save_folder), (None, None, []))[2]]: the names of the
    regular files directly inside [save_folder], in the order the
    directory scan yields them; the empty list when [save_folder] is not a
    directory. *)
Definition top_level_name (save_folder : path) (e : path * node) : option string :=
  match e.2, strip_prefix save_folder e.1 with
  | File _, Some [n] => if decide (plain n) then Some n else None
  | _, _ => None
  end.

Definition listdir_files (fs : gmap path node) (save_folder : path) : list string :=
  if is_dir fs save_folder
  then omap (top_level_name save_folder) (map_to_list fs)
  else [].

(** Git.  The repository is its last commit's tree, its index and its
    history; trees map paths relative to the working directory to blobs.
    The working tree is read off the file system ([.git] excluded).  The
    record stands for the content of [save_folder/.git]: the file system
    map says that the directory exists and nothing of what is below it. *)

Record repo_state : Type := mkRepo {
  head_tree : gmap path bytes;
  index : gmap path bytes;
  commits : list (string * gmap path bytes)
}.

Definition tracked_entry (save_folder : path) (e : path * node) : option (path * bytes) :=
  match e.2, strip_prefix save_folder e.1 with
  | File c, Some (n :: rel) => if decide (n = ".git") then None else Some (n :: rel, c)
  | _, _ => None
  end.

Definition worktree (fs : gmap path node) (save_folder : path) : gmap path bytes :=
  list_to_map (omap (tracked_entry save_folder) (map_to_list fs)).

(** The controller API and the git remote, as one snapshot of what they
    answer. *)

Inductive request_error : Type :=
  | HTTPError
  | ConnectionError
  | Timeout
  | RequestException.

Definition response (A : Type) : Type := (request_error * string) + A.

Record file_entry : Type := mkEntry {
  entry_id : Z;
  entry_name : string;
  deployed : bool
}.

Record file_detail : Type := mkDetail {
  file_id : Z;
  file_name : string;
  file_sha : string;
  file_source : string;
  file_draft : string
}.

(** What [repo.remotes.origin.push()] does: it returns (whatever the
    remote made of the push), git fails and [GitCommandError] is raised,
    or the repository has no remote named [origin] and the attribute
    lookup raises [AttributeError]. *)
Inductive push_answer : Type :=
  | PushReturns
  | PushFails
  | NoOrigin.

Record remote : Type := mkRemote {
  post_login : response string;
  get_files : string -> response (list file_entry);
  get_file : string -> Z -> response file_detail;
  git_push : push_answer
}.

(** What a run does to the outside, in order. *)

Inductive level : Type := DEBUG | INFO | ERROR.

Inductive event : Type :=
  | EvLogin
  | EvListFiles
  | EvGetFile (id : Z)
  | EvRead (p : path)
  | EvWrite (p : path) (content : bytes)
  | EvRemove (p : path)
  | EvIndexRemove (f : string)
  | EvAddAll
  | EvCommit (msg : string)
  | EvPush
  | EvLog (lvl : level) (msg : string).

Record world : Type := mkWorld {
  fs : gmap path node;
  repo : repo_state;
  trace : list event
}.

(** What ends a call before it returns: an exception of the program, or
    [Unmodelled], which is none: it ends a run of the model at the file
    operation that enters the git directory. *)
Inductive exn : Type :=
  | RequestError (kind : request_error) (msg : string)
  | ValueError
  | UnicodeDecodeError
  | OSError
  | GitCommandError
  | AttributeError
  | Unmodelled.

(** State and exceptions: the world as it is when the exception is raised
    is kept. *)
Definition M (A : Type) : Type := world -> world * (exn + A).

Definition ret {A} (a : A) : M A := fun w => (w, inr a).
Definition raise {A} (e : exn) : M A := fun w => (w, inl e).
Definition bind {A B} (m : M A) (k : A -> M B) : M B :=
  fun w => match m w with
           | (w', inr a) => k a w'
           | (w', inl e) => (w', inl e)
           end.

Declare Scope io_scope.
Delimit Scope io_scope with io.
Notation "x <- m ;; k" := (bind m (fun x => k))
  (at level 100, m at next level, right associativity) : io_scope.
Notation "m ;; k" := (bind m (fun _ => k))
  (at level 100, right associativity) : io_scope.
Local Open Scope io_scope.

Definition record (e : event) (w : world) : world :=
  mkWorld (fs w) (repo w) (trace w ++ [e]).

Definition emit (e : event) : M unit := fun w => (record e w, inr tt).

Definition logger (lvl : level) (msg : string) : M unit := emit (EvLog lvl msg).

Definition lift_response {A} (r : response A) : M A :=
  match r with
  | inl (k, msg) => raise (RequestError k msg)
  | inr a => ret a
  end.

Definition lift_result {A} (r : exn + A) : M A :=
  match r with
  | inl e => raise e
  | inr a => ret a
  end.

(** The part of a trace that acts on the outside: everything but log
    records and reads. *)
Definition effect_of (e : event) : option event :=
  match e with
  | EvLog _ _ | EvRead _ => None
  | _ => Some e
  end.

Definition effects (evs : list event) : list event := omap effect_of evs.

Definition written (evs : list event) : list path :=
  omap (fun e => match e with EvWrite p _ => Some p | _ => None end) evs.

Definition removed (evs : list event) : list path :=
  omap (fun e => match e with EvRemove p => Some p | _ => None end) evs.

Definition fetched (evs : list event) : list Z :=
  omap (fun e => match e with EvGetFile id => Some id | _ => None end) evs.

Definition committed (evs : list event) : list string :=
  omap (fun e => match e with EvCommit msg => Some msg | _ => None end) evs.

(** File system primitives. *)

(** The folder as a string, which is also how the log records print
    it. *)
Definition path_string (p : path) : string := "/" +:+ String.concat "/" p.

(** What the file system refuses.  A path with a NUL byte is refused by
    Python before any system call ([ValueError: embedded null byte]); the
    kernel refuses a directory entry name of more than [NAME_MAX] bytes
    and a path of [PATH_MAX] bytes or more ([ENAMETOOLONG], an
    [OSError]).  The path of the folder itself is valid, and short enough
    for its entries to be addressed: a name of at most [NAME_MAX] bytes
    joined to it is not too long.  Permissions, quotas and device errors
    are left out: the process may read, create, overwrite and delete
    whatever the walk reaches. *)
Definition NAME_MAX : N := 255.
Definition PATH_MAX : N := 4096.

Definition byte_length (s : string) : N := N.of_nat (String.length s).

Definition has_nul (s : string) : bool :=
  existsb (fun c => Ascii.eqb c Ascii.zero) (list_ascii_of_string s).

(** The length in bytes of [os.path.join(save_folder, name)]. *)
Definition joined_length (save_folder : path) (name : string) : N :=
  if is_abs name then byte_length name
  else match save_folder with
       | [] => 1 + byte_length name
       | _ => byte_length (path_string save_folder) + 1 + byte_length name
       end.

Definition too_long (save_folder : path) (name : string) : bool :=
  (NAME_MAX <? byte_length name)%N && (PATH_MAX <=? joined_length save_folder name)%N
  || existsb (fun c => (NAME_MAX <? byte_length c)%N) (components name).

(** The git directory of the repository in [save_folder], and the test
    that a path lies below it.  [enters] follows [walk] and says whether
    the walk comes below [dir] on its way. *)
Definition git_dir (save_folder : path) : path := save_folder ++ [".git"].

Definition inside (dir p : path) : bool :=
  match strip_prefix dir p with
  | Some (_ :: _) => true
  | _ => false
  end.

Fixpoint enters (fs : gmap path node) (dir cur : path) (cs : list string) : bool :=
  inside dir cur ||
  match cs with
  | [] => false
  | c :: rest => is_dir fs cur && enters fs dir (step_dir cur c) rest
  end.

(** The path that a file operation on [os.path.join(save_folder, name)]
    acts on, or what stops it before. *)
Definition resolve (fs : gmap path node) (save_folder : path) (name : string)
  : exn + path :=
  if has_nul name then inl ValueError
  else if too_long save_folder name then inl OSError
  else if enters fs (git_dir save_folder)
            (if is_abs name then [] else save_folder) (components name)
  then inl Unmodelled
  else match locate fs save_folder name with
       | Some p => inr p
       | None => inl OSError
       end.

(** A name on which no file operation is refused for its form. *)
Definition addressable (save_folder : path) (name : string) : bool :=
  negb (has_nul name) && negb (too_long save_folder name).

(** [os.path.isfile(os.path.join(save_folder, name))]: [False] on a
    [ValueError] or an [OSError] of the underlying [os.stat]. *)
Definition os_path_isfile (save_folder : path) (name : string) : M bool :=
  fun w =>
    match resolve (fs w) save_folder name with
    | inr p => (w, inr match fs w !! p with Some (File _) => true | _ => false end)
    | inl Unmodelled => (w, inl Unmodelled)
    | inl _ => (w, inr false)
    end.

(** [open(os.path.join(save_folder, name), "rb").read()] *)
Definition read_bytes (save_folder : path) (name : string) : M bytes :=
  fun w =>
    match resolve (fs w) save_folder name with
    | inr p =>
        match fs w !! p with
        | Some (File c) => (mkWorld (fs w) (repo w) (trace w ++ [EvRead p]), inr c)
        | _ => (w, inl OSError)
        end
    | inl e => (w, inl e)
    end.

(** A file can be created or truncated at the resolved path [p] when [p]
    is not a directory and its parent is one. *)
Definition writable (fs : gmap path node) (p : path) : bool :=
  bool_decide (p <> []) && negb (is_dir fs p) && is_dir fs (removelast p).

(** [with open(os.path.join(save_folder, name), "w") as f: f.write(source)] *)
Definition write_text (save_folder : path) (name : string) (source : Utf8.text)
  : M unit :=
  fun w =>
    match resolve (fs w) save_folder name with
    | inr p =>
        if writable (fs w) p then
          let content := Utf8.encode source in
          (mkWorld (<[p := File content]> (fs w)) (repo w)
                   (trace w ++ [EvWrite p content]), inr tt)
        else (w, inl OSError)
    | inl e => (w, inl e)
    end.

(** [os.remove(os.path.join(save_folder, name))], for a name that the
    listing of [save_folder] holds. *)
Definition os_remove (save_folder : path) (name : string) : M unit :=
  fun w =>
    match locate (fs w) save_folder name with
    | Some p =>
        match fs w !! p with
        | Some (File _) =>
            (mkWorld (delete p (fs w)) (repo w) (trace w ++ [EvRemove p]), inr tt)
        | _ => (w, inl OSError)
        end
    | None => (w, inl OSError)
    end.

Definition os_walk_files (save_folder : path) : M (list string) :=
  fun w => (w, inr (listdir_files (fs w) save_folder)).

(** Git primitives.  They read the working tree off the file system and
    act on the repository state, that is on the content of the git
    directory, of which the file system map holds nothing.
    [repo.index.remove([f])] runs [git rm --cached -- f], which fails when
    [f] is not in the index. *)
Definition index_remove (f : string) : M unit :=
  fun w =>
    match index (repo w) !! [f] with
    | Some _ =>
        (mkWorld (fs w)
           (mkRepo (head_tree (repo w)) (delete [f] (index (repo w))) (commits (repo w)))
           (trace w ++ [EvIndexRemove f]), inr tt)
    | None => (w, inl GitCommandError)
    end.

(** [repo.is_dirty(untracked_files=True)]: the index differs from the last
    commit, or the working tree (untracked files included) from the index. *)
Definition dirty (save_folder : path) (w : world) : bool :=
  bool_decide (index (repo w) <> head_tree (repo w))
  || bool_decide (worktree (fs w) save_folder <> index (repo w)).

Definition is_dirty (save_folder : path) : M bool :=
  fun w => (w, inr (dirty save_folder w)).

(** [repo.git.add(A=True)] *)
Definition git_add_all (save_folder : path) : M unit :=
  fun w =>
    (mkWorld (fs w)
       (mkRepo (head_tree (repo w)) (worktree (fs w) save_folder) (commits (repo w)))
       (trace w ++ [EvAddAll]), inr tt).

(** [repo.index.commit(msg)] *)
Definition index_commit (msg : string) : M unit :=
  fun w =>
    (mkWorld (fs w)
       (mkRepo (index (repo w)) (index (repo w))
               (commits (repo w) ++ [(msg, index (repo w))]))
       (trace w ++ [EvCommit msg]), inr tt).

(** [repo.remotes.origin.push()]; [EvPush] records that the call has
    returned. *)
Definition origin_push (api : remote) : M unit :=
  match git_push api with
  | PushReturns => emit EvPush
  | PushFails => raise GitCommandError
  | NoOrigin => raise AttributeError
  end.

(** HTTP primitives: [requests.get(...)] followed by [raise_for_status()]
    and [.json()]. *)
Definition http_login (api : remote) : M string :=
  emit EvLogin ;; lift_response (post_login api).

Definition http_files (api : remote) (token : string) : M (list file_entry) :=
  emit EvListFiles ;; lift_response (get_files api token).

Definition http_file (api : remote) (token : string) (id : Z) : M file_detail :=
  emit (EvGetFile id) ;; lift_response (get_file api token id).

(* ===================================================================== *)
(** ** The program

    [process_file] and [write_file] are embedded as written; of [main] the
    [try] block and its [except] clauses are (lines 107-162), started on a
    repository that [initialize_git_repo] has opened.  What the model
    leaves to its inputs: the settings are the resolved mirror directory
    and the push flag; JSON objects are records, so a missing key cannot
    occur; the locale encodes text files as UTF-8; no [.gitignore] hides
    a file from git; what the push does is an answer of the [remote]. *)

(** The test of line 54: [original_hash.hexdigest() != file['sha']]. *)
Definition is_changed (local : bytes) (remote_sha : string) : bool :=
  negb (String.eqb (Sha256.hexdigest local) remote_sha).

(** [file['draft'] if file['source'] == "" else file['source']] *)
Definition effective_payload (file : file_detail) : string :=
  if String.eqb (file_source file) "" then file_draft file else file_source file.

(** [b64decode(file_source).decode('utf-8')] *)
Definition decode_payload (file_source : string) : exn + Utf8.text :=
  match Base64.b64decode file_source with
  | None => inl ValueError
  | Some raw =>
      match Utf8.decode raw with
      | None => inl UnicodeDecodeError
      | Some source => inr source
      end
  end.

Definition write_file (filename : string) (source : Utf8.text) (save_folder : path)
  : M unit :=
  logger INFO ("Writing file: " +:+ filename) ;;
  write_text save_folder filename source.

Definition process_file (file : file_detail) (save_folder : path) : M bool :=
  logger DEBUG ("Processing file ID: " +:+ pretty (file_id file)
                +:+ ", File Name: " +:+ file_name file
                +:+ ", File SHA: " +:+ file_sha file) ;;
  let file_source := effective_payload file in
  exists_ <- os_path_isfile save_folder (file_name file) ;;
  if exists_ : bool then
    original <- read_bytes save_folder (file_name file) ;;
    if is_changed original (file_sha file) then
      source <- lift_result (decode_payload file_source) ;;
      write_file (file_name file) source save_folder ;;
      ret true
    else ret false
  else
    source <- lift_result (decode_payload file_source) ;;
    write_file (file_name file) source save_folder ;;
    ret true.

(** The local file of an artifact is current: [os.path.isfile] finds it
    and its digest is the remote one. *)
Definition up_to_date (fs : gmap path node) (sf : path) (name sha : string) : Prop :=
  exists p c, resolve fs sf name = inr p /\ fs !! p = Some (File c) /\
              Sha256.hexdigest c = sha.

(** The file at [p] has the digest [sha]. *)
Definition has_digest (fs : gmap path node) (p : path) (sha : string) : Prop :=
  exists c, fs !! p = Some (File c) /\ Sha256.hexdigest c = sha.

(** What stops a call that has to write, if anything does: the walk into
    the git directory, met by [os.path.isfile] already; then the payload
    that cannot be decoded; then the path that [open] refuses. *)
Definition raised (file : file_detail) (sf : path) (fs : gmap path node) : option exn :=
  match resolve fs sf (file_name file) with
  | inl Unmodelled => Some Unmodelled
  | res =>
      match decode_payload (effective_payload file) with
      | inl e => Some e
      | inr _ =>
          match res with
          | inl e => Some e
          | inr p => if writable fs p then None else Some OSError
          end
      end
  end.

(** The three ways a call of [process_file] ends. *)
Inductive processed (file : file_detail) (sf : path) (w w' : world)
  : exn + bool -> Prop :=
  | processed_skip p c evs :
      resolve (fs w) sf (file_name file) = inr p ->
      fs w !! p = Some (File c) ->
      Sha256.hexdigest c = file_sha file ->
      w' = mkWorld (fs w) (repo w) (trace w ++ evs) ->
      effects evs = [] ->
      processed file sf w w' (inr false)
  | processed_write p source evs :
      ~ up_to_date (fs w) sf (file_name file) (file_sha file) ->
      decode_payload (effective_payload file) = inr source ->
      resolve (fs w) sf (file_name file) = inr p ->
      writable (fs w) p = true ->
      w' = mkWorld (<[p := File (Utf8.encode source)]> (fs w)) (repo w) (trace w ++ evs) ->
      effects evs = [EvWrite p (Utf8.encode source)] ->
      processed file sf w w' (inr true)
  | processed_fail e evs :
      ~ up_to_date (fs w) sf (file_name file) (file_sha file) ->
      w' = mkWorld (fs w) (repo w) (trace w ++ evs) ->
      effects evs = [] ->
      raised file sf (fs w) = Some e ->
      processed file sf w w' (inl e).

Record settings : Type := mkSettings {
  save_folder : path;
  push_to_repo : bool
}.

Section Main.
Variable cfg : settings.
Variable api : remote.
(** [datetime.datetime.now().strftime('%Y-%m-%d %H:%M')] *)
Variable now : string.

(** Lines 127-131. *)
Fixpoint process_all (token : string) (file_ids : list Z) (commit_required : bool)
  : M bool :=
  match file_ids with
  | [] => ret commit_required
  | vclfile_id :: rest =>
      file <- http_file api token vclfile_id ;;
      changed <- process_file file (save_folder cfg) ;;
      process_all token rest (if changed : bool then true else commit_required)
  end.

(** Lines 134-138. *)
Fixpoint cleanup (files_on_disk files_to_backup : list string)
    (commit_required : bool) : M bool :=
  match files_on_disk with
  | [] => ret commit_required
  | file :: rest =>
      if bool_decide (file ∈ files_to_backup)
      then cleanup rest files_to_backup commit_required
      else
        os_remove (save_folder cfg) file ;;
        index_remove file ;;
        cleanup rest files_to_backup true
  end.

(** Lines 108-138: everything up to the commit decision. *)
Definition apply_phase : M bool :=
  token <- http_login api ;;
  files <- http_files api token ;;
  files_on_disk <- os_walk_files (save_folder cfg) ;;
  let backed := filter (fun f => deployed f = true) files in
  let file_ids := entry_id <$> backed in
  let files_to_backup := entry_name <$> backed in
  commit_required <- process_all token file_ids false ;;
  cleanup files_on_disk files_to_backup commit_required.

(** Lines 146-151.  The push is inside the [try] block, whose [except]
    clauses catch request errors only. *)
Definition push_phase : M unit :=
  if push_to_repo cfg then
    logger INFO "Pushing changes to remote repository." ;;
    origin_push api ;;
    logger INFO "Changes pushed to remote repository."
  else ret tt.

(** Lines 140-153. *)
Definition commit_phase (commit_required : bool) : M unit :=
  repo_dirty <- is_dirty (save_folder cfg) ;;
  if commit_required || repo_dirty then
    logger INFO "Changes detected ready to commit." ;;
    git_add_all (save_folder cfg) ;;
    index_commit ("Updated configs at " +:+ now) ;;
    logger INFO "Changes committed to repository." ;;
    push_phase
  else logger INFO "No changes detected.".

Definition try_body : M unit :=
  commit_required <- apply_phase ;;
  commit_phase commit_required.

Definition handler_prefix (k : request_error) : string :=
  match k with
  | HTTPError => "HTTP error: "
  | ConnectionError => "Connection error: "
  | Timeout => "Timeout error: "
  | RequestException => "General error: "
  end.

(** The exit status of a process that an exception leaves uncaught;
    none where the run has left the model. *)
Definition uncaught (e : exn) : option Z :=
  match e with
  | Unmodelled => None
  | _ => Some 1%Z
  end.

(** Lines 107-162 with the process exit status: the four [except]
    clauses catch the request errors; any other exception leaves
    [main] and the interpreter exits with status 1. *)
Definition main (w : world) : world * option Z :=
  match try_body w with
  | (w', inr _) => (w', Some 0%Z)
  | (w', inl (RequestError k msg)) =>
      ((logger ERROR (handler_prefix k +:+ msg) w').1, Some 0%Z)
  | (w', inl e) => (w', uncaught e)
  end.

(** Every outside effect of the fetch loop comes from a deployed
    artifact: a retrieval of one of [file_ids], or the write of the file
    that the retrieved artifact names. *)
Definition from_deployed (token : string) (fs0 : gmap path node) (file_ids : list Z)
    (e : event) : Prop :=
  (exists id, e = EvGetFile id /\ id ∈ file_ids) \/
  (exists id file p c, e = EvWrite p c /\ id ∈ file_ids /\
     get_file api token id = inr file /\
     resolve fs0 (save_folder cfg) (file_name file) = inr p).

Definition commit_message : string := "Updated configs at " +:+ now.

(** The world after the commit, when the run commits, and what the
    push makes of it. *)
Definition after_commit (w : world) : world :=
  let tree := worktree (fs w) (save_folder cfg) in
  mkWorld (fs w)
    (mkRepo tree tree (commits (repo w) ++ [(commit_message, tree)]))
    (trace w ++
       [EvLog INFO "Changes detected ready to commit."; EvAddAll;
        EvCommit commit_message; EvLog INFO "Changes committed to repository."]).

Definition push_raises : option exn :=
  if push_to_repo cfg then
    match git_push api with
    | PushReturns => None
    | PushFails => Some GitCommandError
    | NoOrigin => Some AttributeError
    end
  else None.

Definition push_result : exn + unit :=
  match push_raises with
  | Some e => inl e
  | None => inr tt
  end.

(** The exit status of a run that has committed: 1 when pushing is on
    and the push raises, 0 otherwise. *)
Definition status_after_commit : Z :=
  match push_raises with
  | Some _ => 1
  | None => 0
  end.

Definition after_push (w : world) : world :=
  mkWorld (fs w) (repo w)
    (trace w ++
       (if push_to_repo cfg
        then EvLog INFO "Pushing changes to remote repository."
             :: match git_push api with
                | PushReturns => [EvPush; EvLog INFO "Changes pushed to remote repository."]
                | _ => []
                end
        else [])).

(** The artifacts a run can be stable on: their retrieved description
    carries the listed name, the name is a plain file name, and the
    remote digest is the digest of the bytes the payload is written as. *)
Definition faithful (token : string) (f : file_entry) : Prop :=
  forall file, get_file api token (entry_id f) = inr file ->
    file_name file = entry_name f /\ plain (entry_name f) /\
    forall source, decode_payload (effective_payload file) = inr source ->
                   file_sha file = Sha256.hexdigest (Utf8.encode source).

(** The artifacts a run can tell apart by their names: the retrieved
    description carries the listed name, and the name is a plain file
    name. *)
Definition named (token : string) (f : file_entry) : Prop :=
  forall file, get_file api token (entry_id f) = inr file ->
    file_name file = entry_name f /\ plain (entry_name f).

Definition current (token : string) (w : world) (f : file_entry) : Prop :=
  exists file, get_file api token (entry_id f) = inr file /\
    up_to_date (fs w) (save_folder cfg) (file_name file) (file_sha file).

End Main.

(* ===================================================================== *)
(** ** Concrete worlds and remotes, used to run the program *)

Module Scenario.

Definition root : path := ["srv"; "vcl"].

(** The directory [/srv/vcl] holding the given top-level files, and the
    mirror it is with the git directory of a repository. *)
Definition folder (files : list (string * string)) : gmap path node :=
  list_to_map
    ([([], Dir); (["srv"], Dir); (root, Dir)]
       ++ ((fun f => (root ++ [f.1], File (bytes_of_string f.2))) <$> files)).

Definition mirror (files : list (string * string)) : gmap path node :=
  <[git_dir root := Dir]> (folder files).

Definition tree (files : list (string * string)) : gmap path bytes :=
  list_to_map ((fun f => ([f.1], bytes_of_string f.2)) <$> files).

(** A clean working copy: everything on disk is committed. *)
Definition clean_world (files : list (string * string)) : world :=
  mkWorld (mirror files)
          (mkRepo (tree files) (tree files) [("Initial commit", tree files)]) [].

Definition cfg : settings := mkSettings root false.
Definition now : string := "2024-05-01 12:00".

Definition sha_empty : string :=
  "e3b0c44298fc1c149afbf4c8996fb92427ae41e4649b934ca495991b7852b855".
Definition sha_A : string :=
  "559aead08264d5795d3909718cdd05abd49572e84fe55590eef31a88a08fdffd".
Definition sha_B : string :=
  "df7e70e5021544f4834bbee64a9e3789febc4be81470df629cad6ddb03320a5c".
Definition sha_ff : string :=
  "a8100ae6aa1940d0b663bb31cd466142ebbdbd5187131b92d93818987832eb89".

Definition not_found {A} : response A := inl (HTTPError, "404 Client Error").

(** A controller that lists [entries] and serves [details] by id, with a
    git remote that takes the push. *)
Definition controller (entries : list file_entry) (details : list file_detail)
  : remote :=
  mkRemote (inr "token") (fun _ => inr entries)
    (fun _ id =>
       match list_find (fun d => file_id d = id) details with
       | Some (_, d) => inr d
       | None => not_found
       end)
    PushReturns.


(** The end-to-end scenario: [a.vcl] is current, [b.vcl] is new (and has a
    draft only), [c.vcl] is an orphan, [old.vcl] is not deployed. *)
Definition art_a : file_detail := mkDetail 1 "a.vcl" sha_A "QQ==" "".
Definition art_b : file_detail := mkDetail 2 "b.vcl" sha_B "" "Qg==".

Definition api : remote :=
  controller [mkEntry 1 "a.vcl" true; mkEntry 2 "b.vcl" true; mkEntry 3 "old.vcl" false]
             [art_a; art_b].

Definition world0 : world := clean_world [("a.vcl", "A"); ("c.vcl", "C")].

(** The second artifact cannot be retrieved. *)
Definition api_partial : remote :=
  controller [mkEntry 2 "b.vcl" true; mkEntry 7 "g.vcl" true] [art_b].

(** The login is refused. *)
Definition api_down : remote :=
  mkRemote (inl (ConnectionError, "Connection refused"))
           (fun _ => not_found) (fun _ _ => not_found) PushReturns.


(** An artifact whose payload is the single byte 0xff, which is not
    UTF-8, and a mirror that already holds that byte under its name. *)
Definition art_ff : file_detail := mkDetail 1 "bin.vcl" sha_ff "/w==" "".
Definition api_binary : remote := controller [mkEntry 1 "bin.vcl" true] [art_ff].
Definition world_binary : world :=
  mkWorld (<[root ++ ["bin.vcl"] := File [xff]]> (mirror []))
          (mkRepo {[ ["bin.vcl"] := [xff] ]} {[ ["bin.vcl"] := [xff] ]}
                  [("Initial commit", {[ ["bin.vcl"] := [xff] ]})]) [].

(** The same artifact listed after one that cannot be retrieved. *)
Definition api_binary_late : remote :=
  controller [mkEntry 7 "g.vcl" true; mkEntry 1 "bin.vcl" true] [art_ff].

(** An artifact with an empty effective payload. *)
Definition art_empty : file_detail := mkDetail 4 "empty.vcl" sha_empty "" "".

(** Remotes on which a run is not stable.  The digest is that of the
    (empty) published payload while the draft is what gets written; two
    deployed artifacts share a name; the name is not a plain file name;
    the retrieved description carries another name than the list. *)
Definition api_foreign_digest : remote :=
  controller [mkEntry 1 "a.vcl" true] [mkDetail 1 "a.vcl" sha_empty "" "QQ=="].

Definition api_same_name : remote :=
  controller [mkEntry 1 "a.vcl" true; mkEntry 2 "a.vcl" true]
             [mkDetail 1 "a.vcl" sha_A "QQ==" ""; mkDetail 2 "a.vcl" sha_B "Qg==" ""].

Definition api_dot_name : remote :=
  controller [mkEntry 1 "./a.vcl" true] [mkDetail 1 "./a.vcl" sha_A "QQ==" ""].

Definition api_renamed : remote :=
  controller [mkEntry 1 "a.vcl" true] [mkDetail 1 "b.vcl" sha_A "QQ==" ""].

(** The world a run leaves, with an empty trace, for the next run. *)
Definition next_world (w : world) : world := mkWorld (fs w) (repo w) [].

Definition second_run (api : remote) (w : world) : world * (exn + bool) :=
  apply_phase cfg api (next_world (main cfg api now w).1).

End Scenario.

(** A digest in the form [hexdigest()] prints it: 64 characters, each a
    decimal digit or one of the lowercase letters [a] to [f]. *)
Definition is_lower_hex (c : ascii) : bool :=
  let n := char_code c in
  ((48 <=? n) && (n <=? 57) || (97 <=? n) && (n <=? 102))%Z.

Definition canonical_digest (s : string) : bool :=
  (String.length s =? 64)%nat && forallb is_lower_hex (list_ascii_of_string s).

(** What a trace publishes: its commits and pushes, in order. *)
Definition published (evs : list event) : list event :=
  omap (fun e => match e with
                 | EvCommit _ | EvPush => Some e
                 | _ => None
                 end) evs.

(* ===================================================================== *)
(** ** Opening the repository

    [initialize_git_repo] and the lines of [main] between it and the
    [try] block (lines 18-44 and 93-105).  What the model of the
    repository leaves out stays out: the branch name (so that
    [checkout -b main] has nothing to act on), the configuration written
    through [config_writer], and the remote [origin] with its tracking
    refs.  The operations on [origin] (create it or set its URL, fetch,
    set the tracking branch) either all go through or raise a
    [GitCommandError], as the input [origin_ok] says.  The contents of
    [.git] are the repository state; on the file system [.git] is a
    directory node.  [save_folder] is the resolved, absolute folder. *)

(** [os.path.isdir(p)] *)
Definition os_path_isdir (p : path) : M bool :=
  fun w => (w, inr (is_dir (fs w) p)).

(** [os.path.isdir(os.path.join(save_folder, name))] *)
Definition os_path_isdir_in (save_folder : path) (name : string) : M bool :=
  fun w =>
    (w, inr match locate (fs w) save_folder name with
            | Some p => is_dir (fs w) p
            | None => false
            end).

(** The directories [cur], [cur/c1], [cur/c1/c2], ... are created where
    they are missing; a regular file in the way stops it. *)
Fixpoint make_dirs (fs : gmap path node) (cur : path) (rest : list string)
  : option (gmap path node) :=
  match fs !! cur with
  | Some (File _) => None
  | _ =>
      let fs1 := <[cur := Dir]> fs in
      match rest with
      | [] => Some fs1
      | c :: rest' => make_dirs fs1 (cur ++ [c]) rest'
      end
  end.

Inductive mkdir_error : Type :=
  | FileExistsError
  | NotADirectoryError.

(** [os.makedirs(p)], with [exist_ok] left at [False]. *)
Definition os_makedirs (p : path) (w : world) : world * (mkdir_error + unit) :=
  match fs w !! p with
  | Some _ => (w, inl FileExistsError)
  | None =>
      match make_dirs (fs w) [] p with
      | Some fs1 => (mkWorld fs1 (repo w) (trace w), inr tt)
      | None => (w, inl NotADirectoryError)
      end
  end.

(** [git init] run in the directory [save_folder]: an empty repository is
    created; an existing one is left as it is; a regular file named
    [.git] is no repository. *)
Definition git_init (save_folder : path) : M unit :=
  fun w =>
    match fs w !! (save_folder ++ [".git"]) with
    | Some Dir => (w, inr tt)
    | Some (File _) => (w, inl GitCommandError)
    | None =>
        (mkWorld (<[save_folder ++ [".git"] := Dir]> (fs w)) (mkRepo ∅ ∅ []) (trace w),
         inr tt)
    end.

(** [git.Repo.init(save_folder)]: the directory is made first when no
    such path exists, then [git init] runs in it. *)
Definition repo_init (save_folder : path) : M unit :=
  fun w =>
    match fs w !! save_folder with
    | Some (File _) => (w, inl GitCommandError)
    | Some Dir => git_init save_folder w
    | None =>
        match make_dirs (fs w) [] save_folder with
        | Some fs1 => git_init save_folder (mkWorld fs1 (repo w) (trace w))
        | None => (w, inl OSError)
        end
    end.

(** [repo.index.add([os.path.join(save_folder, name)])] for the name of a
    file directly in [save_folder]. *)
Definition index_add (save_folder : path) (name : string) : M unit :=
  fun w =>
    match fs w !! (save_folder ++ [name]) with
    | Some (File c) =>
        (mkWorld (fs w)
           (mkRepo (head_tree (repo w)) (<[[name] := c]> (index (repo w)))
                   (commits (repo w)))
           (trace w), inr tt)
    | _ => (w, inl OSError)
    end.

(** The operations on the remote [origin]: lines 31-34 in a new
    repository, lines 38-43 in an existing one. *)
Definition link_origin (origin_ok : bool) : M unit :=
  if origin_ok then ret tt else raise GitCommandError.

(** The truth value of [remote_repo_url]: neither [None] nor empty. *)
Definition truthy (s : option string) : bool :=
  match s with
  | Some u => negb (String.eqb u "")
  | None => false
  end.

(** Lines 18-44.  After [Repo.init] comes [repo.git.checkout('-b', 'main')],
    which names the branch and changes nothing that is modelled; the empty
    [.gitkeep] is written through a plain [open(..., 'w')], without the
    log record of [write_file]. *)
Definition initialize_git_repo (save_folder : path) (remote_repo_url : option string)
    (push_to_repo origin_ok : bool) : M unit :=
  has_git <- os_path_isdir_in save_folder ".git" ;;
  if negb has_git then
    repo_init save_folder ;;
    write_text save_folder ".gitkeep" [] ;;
    index_add save_folder ".gitkeep" ;;
    index_commit "Initial commit" ;;
    if push_to_repo && truthy remote_repo_url then link_origin origin_ok else ret tt
  else
    if push_to_repo then link_origin origin_ok else ret tt.

(** Lines 99-105 of [main]: of the exceptions of [os.makedirs] and
    [Repo.init] only [FileExistsError] is caught. *)
Definition ensure_folder (save_folder : path) : M unit :=
  isdir <- os_path_isdir save_folder ;;
  if negb isdir then
    logger INFO ("Folder (" +:+ path_string save_folder +:+ ") does not exist, creating") ;;
    fun w =>
      match os_makedirs save_folder w with
      | (w1, inr _) => repo_init save_folder w1
      | (w1, inl FileExistsError) =>
          logger ERROR ("File already exists: [Errno 17] File exists: '"
                        +:+ path_string save_folder +:+ "'") w1
      | (w1, inl NotADirectoryError) => (w1, inl OSError)
      end
  else ret tt.

(** Lines 93-105 of [main]; the author name and email of lines 95-97 go
    to the configuration of the repository. *)
Definition startup (cfg : settings) (remote_repo_url : option string)
    (origin_ok : bool) : M unit :=
  initialize_git_repo (save_folder cfg) remote_repo_url (push_to_repo cfg) origin_ok ;;
  ensure_folder (save_folder cfg).

(** Lines 93-162 of [main] with the exit status of the process: an
    exception raised before the [try] block is not caught. *)
Definition program (cfg : settings) (api : remote) (now : string)
    (remote_repo_url : option string) (origin_ok : bool) (w : world)
  : world * option Z :=
  match startup cfg remote_repo_url origin_ok w with
  | (w1, inr _) => main cfg api now w1
  | (w1, inl e) => (w1, uncaught e)
  end.

(** [save_folder] holds a repository. *)
Definition has_repository (fs : gmap path node) (save_folder : path) : bool :=
  is_dir fs save_folder && is_dir fs (save_folder ++ [".git"]).

(** The repository that [initialize_git_repo] creates. *)
Definition gitkeep_tree : gmap path bytes := {[ [".gitkeep"] := [] ]}.

Definition fresh_repo : repo_state :=
  mkRepo gitkeep_tree gitkeep_tree [("Initial commit", gitkeep_tree)].

(** Further worlds and remotes. *)
Module Cases.
Import Scenario.

(** The artifact [a.vcl] with its digest in capital letters. *)
Definition art_upper : file_detail :=
  mkDetail 1 "a.vcl"
    "559AEAD08264D5795D3909718CDD05ABD49572E84FE55590EEF31A88A08FDFFD" "QQ==" "".





(** The directory [/srv/vcl], empty and not yet a repository. *)
Definition world_bare : world := mkWorld (folder []) (mkRepo ∅ ∅ []) [].

(** A file system with nothing but its root. *)
Definition world_absent : world := mkWorld {[ [] := Dir ]} (mkRepo ∅ ∅ []) [].

(** The settings with pushing on. *)
Definition cfg_push : settings := mkSettings root true.

End Cases.

Arguments Sha256.hexdigest : simpl never.
Arguments Sha256.sha256 : simpl never.
Arguments Base64.b64decode : simpl never.
Arguments Utf8.decode : simpl never.
Arguments Utf8.encode : simpl never.
Arguments pretty : simpl never.
Arguments locate : simpl never.
Arguments resolve : simpl never.
Arguments raised : simpl never.
Arguments writable : simpl never.
Arguments decode_payload : simpl never.
Arguments effective_payload : simpl never.
Arguments is_changed : simpl never.
Arguments String.append : simpl never.
Arguments worktree : simpl never.
Arguments listdir_files : simpl never.


(** The derived constants are those of FIPS 180-4, sections 4.2.2 and 5.3.3. *)
Example sha256_constants :
  length Sha256.K = 64 /\
  head Sha256.K = Some 0x428a2f98%Z /\ last Sha256.K = Some 0xc67178f2%Z /\
  Sha256.H0.2 = 0x5be0cd19%Z.
Proof. vm_compute. by split_and!. Qed.

(** Test vectors (FIPS 180-4 appendix; RFC 4648). *)
Example sha256_empty :
  Sha256.hexdigest [] = "e3b0c44298fc1c149afbf4c8996fb92427ae41e4649b934ca495991b7852b855".
Proof. vm_compute. reflexivity. Qed.

Example sha256_abc :
  Sha256.hexdigest (bytes_of_string "abc")
  = "ba7816bf8f01cfea414140de5dae2223b00361a396177a9cb410ff61f20015ad".
Proof. vm_compute. reflexivity. Qed.

Example sha256_two_blocks :
  Sha256.hexdigest
    (bytes_of_string "abcdbcdecdefdefgefghfghighijhijkijkljklmklmnlmnomnopnopq")
  = "248d6a61d20638b8e5c026930c3e6039a33ce45964ff2167f6ecedd419db06c1".
Proof. vm_compute. reflexivity. Qed.

Example b64decode_foobar :
  Base64.b64decode "Zm9vYmFy" = Some (bytes_of_string "foobar").
Proof. vm_compute. reflexivity. Qed.

Example b64decode_padded :
  Base64.b64decode "Zm9vYg==" = Some (bytes_of_string "foob").
Proof. vm_compute. reflexivity. Qed.

Example b64decode_bad_padding : Base64.b64decode "Zm9vYg" = None.
Proof. vm_compute. reflexivity. Qed.

(* ===================================================================== *)
(** ** Content identity *)


Section DigestRange.
Import Sha256.
Local Open Scope Z_scope.









End DigestRange.

(* ===================================================================== *)
(** ** Paths *)

Lemma plain_not_abs n : plain n -> is_abs n = false.
Proof.
  intros (Hne & _ & _ & Hc). destruct n as [|c r]; [done|]. simpl in *.
  destruct (Ascii.eqb c "/"); [|done]. by injection Hc as Hc _.
Qed.

Lemma step_dir_plain cur n : plain n -> step_dir cur n = cur ++ [n].
Proof.
  intros (? & ? & ? & _). unfold step_dir.
  rewrite decide_False by (by intros [?|?]). by rewrite decide_False.
Qed.

(** A plain name resolves to the entry of that name in [save_folder]. *)
Lemma locate_plain fs sf n :
  plain n -> locate fs sf n = if is_dir fs sf then Some (sf ++ [n]) else None.
Proof.
  intros Hn. unfold locate. rewrite (plain_not_abs n Hn).
  pose proof Hn as (_ & _ & _ & Hc). rewrite Hc. simpl.
  destruct (is_dir fs sf); [|done]. by rewrite step_dir_plain.
Qed.

(** Resolution only looks at which paths are directories. *)
Lemma walk_ext fs fs' cur cs :
  (forall p, is_dir fs' p = is_dir fs p) -> walk fs' cur cs = walk fs cur cs.
Proof.
  intros Hd. revert cur. induction cs as [|c cs IH]; intros cur; simpl; [done|].
  rewrite Hd. destruct (is_dir fs cur); [apply IH|done].
Qed.

Lemma locate_ext fs fs' sf n :
  (forall p, is_dir fs' p = is_dir fs p) -> locate fs' sf n = locate fs sf n.
Proof. intros Hd. unfold locate. by apply walk_ext. Qed.

Lemma is_dir_insert_file fs p c q :
  is_dir fs p = false -> is_dir (<[p := File c]> fs) q = is_dir fs q.
Proof.
  intros Hp. unfold is_dir in *. destruct (decide (p = q)) as [->|Hne].
  - rewrite lookup_insert_eq. by destruct (fs !! q) as [[]|].
  - by rewrite lookup_insert_ne.
Qed.

Lemma is_dir_delete_file fs p c q :
  fs !! p = Some (File c) -> is_dir (delete p fs) q = is_dir fs q.
Proof.
  intros Hp. unfold is_dir. destruct (decide (p = q)) as [->|Hne].
  - by rewrite lookup_delete_eq, Hp.
  - by rewrite lookup_delete_ne.
Qed.

Lemma strip_prefix_Some pre : forall p r,
  strip_prefix pre p = Some r <-> p = pre ++ r.
Proof.
  induction pre as [|a pre IH]; intros p r; simpl.
  - split; [by intros [= ->]|by intros ->].
  - destruct p as [|b p]; [by split|].
    case_decide as Hab; [subst b|].
    + rewrite IH. split; [by intros ->|by intros [= ->]].
    + split; [done|]. intros [= ? _]. done.
Qed.

(** The listing holds exactly the plain names of the regular files that
    sit directly in [save_folder]. *)
Lemma elem_of_listdir_files fs sf n :
  n ∈ listdir_files fs sf <->
  is_dir fs sf = true /\ plain n /\ exists c, fs !! (sf ++ [n]) = Some (File c).
Proof.
  unfold listdir_files. destruct (is_dir fs sf); cycle 1.
  { split; [by intros ?%elem_of_nil|by intros [? _]]. }
  rewrite list_elem_of_omap. split.
  - intros ([p nd] & Hin & Hn). apply elem_of_map_to_list in Hin.
    unfold top_level_name in Hn. simpl in Hn.
    destruct nd as [|c]; [done|].
    destruct (strip_prefix sf p) as [[|m [|]]|] eqn:Hs; try done.
    case_decide; [|done]. injection Hn as ->.
    apply strip_prefix_Some in Hs as ->. eauto.
  - intros (_ & Hpl & c & Hc). exists (sf ++ [n], File c).
    split; [by apply elem_of_map_to_list|].
    unfold top_level_name. simpl.
    rewrite (proj2 (strip_prefix_Some sf (sf ++ [n]) [n]) eq_refl).
    by rewrite decide_True.
Qed.

Lemma listdir_files_plain fs sf : Forall plain (listdir_files fs sf).
Proof. apply Forall_forall. by intros n (_ & ? & _)%elem_of_listdir_files. Qed.

(** Resolution for a file operation. *)
Lemma strip_prefix_app (pre a b : path) :
  strip_prefix (pre ++ a) (pre ++ b) = strip_prefix a b.
Proof. induction pre as [|x pre IH]; [done|]. simpl. by rewrite decide_True. Qed.

Lemma strip_prefix_longer (pre : path) (x : string) (a : path) :
  strip_prefix (pre ++ x :: a) pre = None.
Proof. induction pre as [|y pre IH]; [done|]. simpl. by rewrite decide_True. Qed.

Lemma inside_app (pre a b : path) : inside (pre ++ a) (pre ++ b) = inside a b.
Proof. unfold inside. by rewrite strip_prefix_app. Qed.

(** A plain name does not lead into the git directory. *)
Lemma enters_plain fs sf n : plain n -> enters fs (git_dir sf) sf [n] = false.
Proof.
  intros Hn. unfold git_dir. cbn [enters]. rewrite step_dir_plain by done.
  unfold inside at 1. rewrite strip_prefix_longer. simpl.
  rewrite inside_app. unfold inside. simpl. case_decide; simpl; by rewrite ?andb_false_r.
Qed.

Lemma resolve_locate fs sf n p : resolve fs sf n = inr p -> locate fs sf n = Some p.
Proof.
  unfold resolve. destruct (has_nul n); [done|]. destruct (too_long sf n); [done|].
  destruct (enters _ _ _ _); [done|].
  destruct (locate fs sf n); [by intros [= ->]|done].
Qed.

(** The ways a resolution ends. *)
Lemma resolve_inl fs sf n e :
  resolve fs sf n = inl e ->
  (e = ValueError /\ has_nul n = true) \/
  (e = OSError /\ has_nul n = false /\
   (too_long sf n = true \/ locate fs sf n = None)) \/
  (e = Unmodelled /\
   enters fs (git_dir sf) (if is_abs n then [] else sf) (components n) = true).
Proof.
  unfold resolve. destruct (has_nul n); [intros [= <-]; by left|].
  destruct (too_long sf n); [intros [= <-]; right; left; auto|].
  destruct (enters _ _ _ _); [intros [= <-]; right; right; auto|].
  destruct (locate fs sf n); [done|]. intros [= <-]. right; left; auto.
Qed.


Lemma resolve_addressable fs sf n p : resolve fs sf n = inr p -> addressable sf n = true.
Proof.
  unfold resolve, addressable. destruct (has_nul n); [done|]. by destruct (too_long sf n).
Qed.

(** A plain name is refused for its form only when it has a NUL byte or
    more than [NAME_MAX] bytes. *)
Lemma plain_addressable sf n :
  plain n -> has_nul n = false -> (byte_length n <= NAME_MAX)%N ->
  addressable sf n = true.
Proof.
  intros (_ & _ & _ & Hc) Hnul Hlen. unfold addressable, too_long.
  rewrite Hnul, Hc. simpl.
  assert ((NAME_MAX <? byte_length n)%N = false) as -> by (apply N.ltb_ge; lia).
  done.
Qed.

Lemma resolve_plain fs sf n :
  plain n -> addressable sf n = true ->
  resolve fs sf n = if is_dir fs sf then inr (sf ++ [n]) else inl OSError.
Proof.
  intros Hn [Hnul Hlong]%andb_true_iff. unfold resolve.
  apply negb_true_iff in Hnul. apply negb_true_iff in Hlong. rewrite Hnul, Hlong.
  rewrite (plain_not_abs n Hn). pose proof Hn as (_ & _ & _ & ->).
  rewrite enters_plain, locate_plain by done. by destruct (is_dir fs sf).
Qed.

Lemma resolve_plain_inr fs sf n p :
  plain n -> resolve fs sf n = inr p ->
  p = sf ++ [n] /\ is_dir fs sf = true /\ addressable sf n = true.
Proof.
  intros Hn Hres. pose proof (resolve_addressable _ _ _ _ Hres) as Ha.
  rewrite resolve_plain in Hres by done.
  destruct (is_dir fs sf); [|done]. by injection Hres as <-.
Qed.

Lemma enters_ext fs fs' dir cs : forall cur,
  (forall p, is_dir fs' p = is_dir fs p) -> enters fs' dir cur cs = enters fs dir cur cs.
Proof.
  induction cs as [|c cs IH]; intros cur Hd; simpl; [done|].
  by rewrite Hd, IH.
Qed.

Lemma resolve_ext fs fs' sf n :
  (forall p, is_dir fs' p = is_dir fs p) -> resolve fs' sf n = resolve fs sf n.
Proof.
  intros Hd. unfold resolve. by rewrite (enters_ext fs fs'), (locate_ext fs fs').
Qed.

(* ===================================================================== *)
(** ** [process_file] *)

Lemma effects_app a b : effects (a ++ b) = effects a ++ effects b.
Proof. apply omap_app. Qed.

Ltac io_unfold :=
  unfold process_file, write_file, write_text, read_bytes, os_path_isfile,
    os_remove, index_remove, is_dirty, git_add_all, index_commit, origin_push,
    http_login, http_files, http_file, os_walk_files,
    lift_response, lift_result, logger, emit, record, bind, ret, raise in *.

Lemma not_up_to_date_refused fs sf name sha e :
  resolve fs sf name = inl e -> ~ up_to_date fs sf name sha.
Proof. intros Hres (p & c & Hp & _). congruence. Qed.

Lemma not_up_to_date_no_file fs sf name sha p :
  resolve fs sf name = inr p ->
  (forall c, fs !! p <> Some (File c)) -> ~ up_to_date fs sf name sha.
Proof.
  intros Hres Hf (p' & c & Hp' & Hc & _). rewrite Hres in Hp'. injection Hp' as <-.
  by apply (Hf c).
Qed.

Lemma not_up_to_date_changed fs sf name p c sha :
  resolve fs sf name = inr p ->
  fs !! p = Some (File c) -> is_changed c sha = true -> ~ up_to_date fs sf name sha.
Proof.
  intros Hres Hp Hc (p' & c' & Hp' & Hc' & Hsha).
  rewrite Hres in Hp'. injection Hp' as <-. rewrite Hp in Hc'. injection Hc' as <-.
  unfold is_changed in Hc. rewrite Hsha, String.eqb_refl in Hc. discriminate.
Qed.

Ltac same_world := rewrite <-?app_assoc; reflexivity.

(** The branch that decodes the payload and writes, entered with the
    artifact not up to date and a path that is resolved. *)
Lemma write_branch_spec file sf w0 evs0 p r w' :
  ~ up_to_date (fs w0) sf (file_name file) (file_sha file) ->
  resolve (fs w0) sf (file_name file) = inr p ->
  effects evs0 = [] ->
  (source <- lift_result (decode_payload (effective_payload file)) ;;
   write_file (file_name file) source sf ;;
   ret true) (mkWorld (fs w0) (repo w0) (trace w0 ++ evs0)) = (w', r) ->
  processed file sf w0 w' r.
Proof.
  intros Hnot Hres Hev0. io_unfold. cbn [fs repo trace].
  destruct (decode_payload (effective_payload file)) as [e|source] eqn:Hdec.
  { intros [= <- <-]. eapply processed_fail; [done|reflexivity|done|].
    unfold raised. by rewrite Hres, Hdec. }
  cbn [fs repo trace]. rewrite Hres.
  destruct (writable (fs w0) p) eqn:Hw; intros [= <- <-].
  - eapply (processed_write _ _ _ _ p source); [done..|same_world|].
    rewrite !effects_app. by rewrite Hev0.
  - eapply processed_fail; [done|same_world| |].
    + rewrite !effects_app. by rewrite Hev0.
    + unfold raised. by rewrite Hres, Hdec, Hw.
Qed.

(** The same branch, entered with a path that is refused for its form or
    that cannot be found. *)
Lemma refused_branch_spec file sf w0 evs0 e r w' :
  resolve (fs w0) sf (file_name file) = inl e -> e <> Unmodelled ->
  effects evs0 = [] ->
  (source <- lift_result (decode_payload (effective_payload file)) ;;
   write_file (file_name file) source sf ;;
   ret true) (mkWorld (fs w0) (repo w0) (trace w0 ++ evs0)) = (w', r) ->
  processed file sf w0 w' r.
Proof.
  intros Hres Hne Hev0. io_unfold. cbn [fs repo trace].
  pose proof (not_up_to_date_refused _ _ _ (file_sha file) _ Hres) as Hnot.
  destruct (decode_payload (effective_payload file)) as [e'|source] eqn:Hdec.
  { intros [= <- <-]. eapply processed_fail; [done|reflexivity|done|].
    unfold raised. rewrite Hres, Hdec. by destruct e. }
  cbn [fs repo trace]. rewrite Hres. intros [= <- <-].
  eapply processed_fail; [done|same_world| |].
  - rewrite !effects_app. by rewrite Hev0.
  - unfold raised. rewrite Hres, Hdec. by destruct e.
Qed.

Lemma process_file_spec file sf w w' r :
  process_file file sf w = (w', r) -> processed file sf w w' r.
Proof.
  unfold process_file. unfold bind at 1. unfold logger at 1, emit, record.
  set (line := EvLog DEBUG _). unfold bind at 1. unfold os_path_isfile at 1.
  cbn [fs repo trace].
  destruct (resolve (fs w) sf (file_name file)) as [e|p] eqn:Hres.
  { assert (e = Unmodelled \/ e <> Unmodelled) as [->|Hne]
      by (destruct e; (by left) || (by right)).
    - intros [= <- <-].
      eapply processed_fail;
        [by eapply not_up_to_date_refused|reflexivity|done|].
      unfold raised. by rewrite Hres.
    - intros Hrun.
      apply (refused_branch_spec file sf w [line] e); [done..|].
      by destruct e. }
  destruct (fs w !! p) as [[|c]|] eqn:Hp.
  - apply (write_branch_spec file sf w [line] p); [|done..].
    eapply not_up_to_date_no_file; [done|]. congruence.
  - unfold bind at 1. unfold read_bytes at 1. cbn [fs repo trace].
    rewrite Hres, Hp.
    destruct (is_changed c (file_sha file)) eqn:Hch.
    + rewrite <-app_assoc.
      apply (write_branch_spec file sf w [line; EvRead p] p); [|done..].
      by eapply not_up_to_date_changed.
    + unfold ret. intros [= <- <-].
      eapply (processed_skip _ _ _ _ p c); [done..| |same_world|done].
      unfold is_changed in Hch. apply negb_false_iff in Hch.
      by apply String.eqb_eq in Hch.
  - apply (write_branch_spec file sf w [line] p); [|done..].
    eapply not_up_to_date_no_file; [done|]. congruence.
Qed.

(** What a call leaves behind, whatever its outcome. *)
Lemma processed_frame file sf w w' r :
  processed file sf w w' r ->
  repo w' = repo w /\
  exists evs, trace w' = trace w ++ evs /\
    ((effects evs = [] /\ fs w' = fs w /\ r <> inr true) \/
     (exists p c, effects evs = [EvWrite p c] /\ r = inr true /\
        resolve (fs w) sf (file_name file) = inr p /\
        fs w' = <[p := File c]> (fs w) /\ is_dir (fs w) p = false)).
Proof.
  destruct 1 as [p c evs Hloc Hp Hsha -> Hev
                |p source evs Hnot Hdec Hloc Hw -> Hev
                |e evs Hnot -> Hev Hwhy]; simpl.
  - split; [done|]. exists evs. split; [done|]. left. by repeat split.
  - split; [done|]. exists evs. split; [done|]. right.
    exists p, (Utf8.encode source). repeat split; try done.
    unfold writable in Hw. apply andb_true_iff in Hw as [Hw _].
    apply andb_true_iff in Hw as [_ Hw]. by apply negb_true_iff in Hw.
  - split; [done|]. exists evs. split; [done|]. left. by repeat split.
Qed.

(** Projections of a trace. *)
Lemma written_app a b : written (a ++ b) = written a ++ written b.
Proof. apply omap_app. Qed.

Lemma removed_app a b : removed (a ++ b) = removed a ++ removed b.
Proof. apply omap_app. Qed.

Lemma fetched_app a b : fetched (a ++ b) = fetched a ++ fetched b.
Proof. apply omap_app. Qed.

Lemma committed_app a b : committed (a ++ b) = committed a ++ committed b.
Proof. apply omap_app. Qed.

Lemma written_effects evs : written (effects evs) = written evs.
Proof.
  induction evs as [|e evs IH]; [done|].
  destruct e; simpl; try done; by rewrite IH.
Qed.

Lemma removed_effects evs : removed (effects evs) = removed evs.
Proof.
  induction evs as [|e evs IH]; [done|].
  destruct e; simpl; try done; by rewrite IH.
Qed.

Lemma fetched_effects evs : fetched (effects evs) = fetched evs.
Proof.
  induction evs as [|e evs IH]; [done|].
  destruct e; simpl; try done; by rewrite IH.
Qed.

Lemma committed_effects evs : committed (effects evs) = committed evs.
Proof.
  induction evs as [|e evs IH]; [done|].
  destruct e; simpl; try done; by rewrite IH.
Qed.

Lemma elem_of_written p evs : p ∈ written evs <-> exists c, EvWrite p c ∈ evs.
Proof.
  unfold written. rewrite list_elem_of_omap. split.
  - intros (e & He & Hp). destruct e; try done. injection Hp as ->. eauto.
  - intros (c & Hc). by exists (EvWrite p c).
Qed.

Lemma elem_of_removed p evs : p ∈ removed evs <-> EvRemove p ∈ evs.
Proof.
  unfold removed. rewrite list_elem_of_omap. split.
  - intros (e & He & Hp). destruct e; try done. by injection Hp as ->.
  - intros Hc. by exists (EvRemove p).
Qed.


Lemma elem_of_committed msg evs : msg ∈ committed evs <-> EvCommit msg ∈ evs.
Proof.
  unfold committed. rewrite list_elem_of_omap. split.
  - intros (e & He & Hp). destruct e; try done. by injection Hp as ->.
  - intros Hc. by exists (EvCommit msg).
Qed.

Lemma process_file_skip file sf w :
  up_to_date (fs w) sf (file_name file) (file_sha file) ->
  exists evs, process_file file sf w
                = (mkWorld (fs w) (repo w) (trace w ++ evs), inr false) /\
              effects evs = [].
Proof.
  intros Hup. destruct (process_file file sf w) as [w' r] eqn:Hrun.
  apply process_file_spec in Hrun.
  destruct Hrun as [p c evs Hloc Hp Hsha -> Hev|? ? ? Hnot|? ? Hnot]; [|done..].
  by exists evs.
Qed.

(** Being up to date only depends on the directories and on the target. *)
Lemma up_to_date_preserved fs fs' sf name sha :
  (forall q, is_dir fs' q = is_dir fs q) ->
  (forall p, resolve fs sf name = inr p -> fs' !! p = fs !! p) ->
  up_to_date fs sf name sha ->
  up_to_date fs' sf name sha.
Proof.
  intros Hd Hsame (p & c & Hloc & Hp & Hsha).
  exists p, c. rewrite (resolve_ext fs fs') by done.
  split; [done|]. split; [|done]. by rewrite (Hsame p Hloc).
Qed.

Lemma writable_not_dir fs p : writable fs p = true -> is_dir fs p = false.
Proof.
  unfold writable. intros [[_ Hw]%andb_true_iff _]%andb_true_iff.
  by apply negb_true_iff in Hw.
Qed.

(** After a call that returns, the artifact is up to date, provided its
    remote digest is the digest of the bytes its payload is written as. *)
Lemma process_file_makes_current file sf w w' changed :
  process_file file sf w = (w', inr changed) ->
  (forall source, decode_payload (effective_payload file) = inr source ->
                  file_sha file = Sha256.hexdigest (Utf8.encode source)) ->
  up_to_date (fs w') sf (file_name file) (file_sha file).
Proof.
  intros Hrun Hcons. apply process_file_spec in Hrun.
  inversion Hrun as [p c evs Hloc Hp Hsha Hw Hev
                    |p source evs Hnot Hdec Hloc Hw Hw' Hev|]; subst; simpl.
  - by exists p, c.
  - pose proof (writable_not_dir _ _ Hw) as Hnd.
    exists p, (Utf8.encode source).
    rewrite (resolve_ext (fs w)) by (intros q; by apply is_dir_insert_file).
    split; [done|]. split; [apply lookup_insert_eq|]. symmetry. by apply Hcons.
Qed.

(** A stale artifact with a decodable payload and a target that can be
    opened is written. *)
Lemma process_file_writes file sf w p source :
  ~ up_to_date (fs w) sf (file_name file) (file_sha file) ->
  resolve (fs w) sf (file_name file) = inr p ->
  writable (fs w) p = true ->
  decode_payload (effective_payload file) = inr source ->
  exists evs,
    process_file file sf w
      = (mkWorld (<[p := File (Utf8.encode source)]> (fs w)) (repo w) (trace w ++ evs),
         inr true) /\
    effects evs = [EvWrite p (Utf8.encode source)].
Proof.
  intros Hnot Hloc Hw Hdec.
  destruct (process_file file sf w) as [w' r] eqn:Hrun.
  apply process_file_spec in Hrun.
  destruct Hrun as [p' c evs Hloc' Hp Hsha _ _
                   |p' source' evs _ Hdec' Hloc' _ -> Hev
                   |e evs _ _ _ Hwhy].
  - exfalso. apply Hnot. by exists p', c.
  - rewrite Hloc in Hloc'. injection Hloc' as <-.
    rewrite Hdec in Hdec'. injection Hdec' as <-. by exists evs.
  - exfalso. unfold raised in Hwhy. by rewrite Hloc, Hdec, Hw in Hwhy.
Qed.

(* ===================================================================== *)
(** ** The fetch loop and the cleanup loop *)

Section Run.
Variable cfg : settings.
Variable api : remote.
Variable now : string.

Lemma process_all_cons token id rest cr w :
  process_all cfg api token (id :: rest) cr w =
  match get_file api token id with
  | inl (k, msg) => (record (EvGetFile id) w, inl (RequestError k msg))
  | inr file =>
      match process_file file (save_folder cfg) (record (EvGetFile id) w) with
      | (w1, inr changed) =>
          process_all cfg api token rest (if changed then true else cr) w1
      | (w1, inl e) => (w1, inl e)
      end
  end.
Proof.
  cbn [process_all]. unfold http_file, bind, emit, lift_response, ret, raise.
  destruct (get_file api token id) as [[k msg]|file]; [done|].
  by destruct (process_file file (save_folder cfg) (record (EvGetFile id) w))
    as [w1 [e|b]].
Qed.

Lemma from_deployed_mono token fs0 fs1 ids ids' e :
  (forall q, is_dir fs1 q = is_dir fs0 q) -> ids ⊆ ids' ->
  from_deployed cfg api token fs1 ids e -> from_deployed cfg api token fs0 ids' e.
Proof.
  intros Hd Hsub [(id & -> & Hin)|(id & file & p & c & -> & Hin & Hget & Hloc)].
  - left. exists id. split; [done|]. by apply Hsub.
  - right. exists id, file, p, c. split; [done|]. split; [by apply Hsub|].
    split; [done|]. by rewrite <-(resolve_ext fs0 fs1).
Qed.

Lemma process_all_spec token file_ids : forall cr w w' r,
  process_all cfg api token file_ids cr w = (w', r) ->
  repo w' = repo w /\
  (forall q, is_dir (fs w') q = is_dir (fs w) q) /\
  (forall q, is_Some (fs w !! q) -> is_Some (fs w' !! q)) /\
  exists evs, trace w' = trace w ++ evs /\
    Forall (from_deployed cfg api token (fs w) file_ids) (effects evs) /\
    (forall q, q ∉ written evs -> fs w' !! q = fs w !! q) /\
    match r with
    | inr cr' =>
        fetched evs = file_ids /\ (cr' = true <-> cr = true \/ written evs <> [])
    | inl _ => True
    end.
Proof.
  induction file_ids as [|id rest IH]; intros cr w w' r.
  - intros [= <- <-]. split_and!; try done.
    exists []. rewrite app_nil_r. split_and!; try done.
    split; [by left|by intros [?|?]].
  - rewrite process_all_cons.
    destruct (get_file api token id) as [[k msg]|file] eqn:Hget.
    { intros [= <- <-]. simpl. split_and!; try done.
      exists [EvGetFile id]. split_and!; try done.
      apply Forall_singleton. left. exists id. split; [done|].
      apply list_elem_of_here. }
    destruct (process_file file (save_folder cfg) (record (EvGetFile id) w))
      as [w1 r1] eqn:Hpf.
    apply process_file_spec, processed_frame in Hpf
      as (Hrepo1 & evs1 & Htr1 & Hcase). simpl in *.
    assert (Hdirs1 : forall q, is_dir (fs w1) q = is_dir (fs w) q).
    { destruct Hcase as [(_ & -> & _)|(p & c & _ & _ & _ & -> & Hnd)]; [done|].
      intros q. by apply is_dir_insert_file. }
    assert (Hpers1 : forall q, is_Some (fs w !! q) -> is_Some (fs w1 !! q)).
    { destruct Hcase as [(_ & -> & _)|(p & c & _ & _ & _ & -> & Hnd)]; [done|].
      intros q Hq. destruct (decide (p = q)) as [->|Hne].
      - rewrite lookup_insert_eq. eauto.
      - by rewrite lookup_insert_ne. }
    assert (Hev1 : Forall (from_deployed cfg api token (fs w) (id :: rest))
                     (effects (EvGetFile id :: evs1))).
    { simpl. apply Forall_cons. split.
      - left. exists id. split; [done|]. apply list_elem_of_here.
      - destruct Hcase as [(-> & _)|(p & c & -> & _ & Hloc & _)]; [done|].
        apply Forall_singleton. right. exists id, file, p, c.
        repeat split; try done. apply list_elem_of_here. }
    assert (Hout1 : forall q, q ∉ written (EvGetFile id :: evs1) ->
              fs w1 !! q = fs w !! q).
    { simpl. intros q Hq.
      destruct Hcase as [(_ & -> & _)|(p & c & Hev & _ & _ & -> & _)]; [done|].
      rewrite <-written_effects, Hev in Hq. simpl in Hq.
      apply lookup_insert_ne. intros ->. apply Hq, list_elem_of_here. }
    destruct r1 as [e|changed].
    { intros [= <- <-]. split_and!; try done.
      exists (EvGetFile id :: evs1). split_and!; try done.
      by rewrite Htr1, <-app_assoc. }
    intros Hrest. apply IH in Hrest
      as (Hrepo2 & Hdirs2 & Hpers2 & evs2 & Htr2 & Hev2 & Hout2 & Hres).
    split; [congruence|]. split; [intros q; by rewrite Hdirs2|].
    split; [intros q Hq; by apply Hpers2, Hpers1|].
    exists ((EvGetFile id :: evs1) ++ evs2).
    split; [by rewrite Htr2, Htr1, <-!app_assoc|].
    split.
    { rewrite effects_app. apply Forall_app. split; [done|].
      eapply Forall_impl; [exact Hev2|]. intros e.
      apply from_deployed_mono; [done|]. intros x. apply list_elem_of_further. }
    split.
    { intros q Hq. rewrite written_app in Hq.
      apply not_elem_of_app in Hq as [Hq1 Hq2].
      rewrite Hout2 by done. by apply Hout1. }
    destruct r as [e|cr']; [done|]. destruct Hres as [Hf Hcr].
    split; [by rewrite fetched_app; simpl; rewrite Hf; f_equal;
            rewrite <-fetched_effects;
            destruct Hcase as [(-> & _)|(? & ? & -> & _)]|].
    rewrite Hcr, written_app. simpl.
    destruct Hcase as [(Hev & _ & Hne)|(p & c & Hev & [= ->] & _)].
    + rewrite <-(written_effects evs1), Hev. simpl.
      destruct changed; [done|]. split; (intros [?|?]; [by left|by right]).
    + rewrite <-(written_effects evs1), Hev. simpl.
      split; [intros _; by right|by left].
Qed.


Lemma process_all_app token ids1 : forall ids2 cr w,
  process_all cfg api token (ids1 ++ ids2) cr w =
  match process_all cfg api token ids1 cr w with
  | (w1, inr cr1) => process_all cfg api token ids2 cr1 w1
  | (w1, inl e) => (w1, inl e)
  end.
Proof.
  induction ids1 as [|id rest IH]; intros ids2 cr w; [done|].
  rewrite <-app_comm_cons, !process_all_cons.
  destruct (get_file api token id) as [[k msg]|file]; [done|].
  destruct (process_file file (save_folder cfg) (record (EvGetFile id) w))
    as [w1 [e|changed]]; [done|].
  apply IH.
Qed.

(** [os.remove] and [repo.index.remove]. *)
Lemma os_remove_spec sf f w w' r :
  os_remove sf f w = (w', r) ->
  (exists p c, locate (fs w) sf f = Some p /\ fs w !! p = Some (File c) /\
     w' = mkWorld (delete p (fs w)) (repo w) (trace w ++ [EvRemove p]) /\ r = inr tt) \/
  (w' = w /\ r = inl OSError).
Proof.
  unfold os_remove.
  destruct (locate (fs w) sf f) as [p|]; [|intros [= <- <-]; by right].
  destruct (fs w !! p) as [[|c]|] eqn:Hp; intros [= <- <-]; [by right| |by right].
  left. by exists p, c.
Qed.

Lemma index_remove_spec f w w' r :
  index_remove f w = (w', r) ->
  fs w' = fs w /\ head_tree (repo w') = head_tree (repo w) /\
  commits (repo w') = commits (repo w) /\
  ((trace w' = trace w ++ [EvIndexRemove f] /\ r = inr tt) \/
   (trace w' = trace w /\ r = inl GitCommandError)).
Proof.
  unfold index_remove.
  destruct (index (repo w) !! [f]); intros [= <- <-]; simpl; split_and!; auto.
Qed.

Lemma cleanup_cons file rest backup cr w :
  cleanup cfg (file :: rest) backup cr w =
  if bool_decide (file ∈ backup) then cleanup cfg rest backup cr w
  else match os_remove (save_folder cfg) file w with
       | (w1, inr _) =>
           match index_remove file w1 with
           | (w2, inr _) => cleanup cfg rest backup true w2
           | (w2, inl e) => (w2, inl e)
           end
       | (w1, inl e) => (w1, inl e)
       end.
Proof.
  cbn [cleanup]. case_bool_decide; [done|]. unfold bind.
  destruct (os_remove (save_folder cfg) file w) as [w1 [e|[]]]; [done|].
  by destruct (index_remove file w1) as [w2 [e|[]]].
Qed.

(** The cleanup loop only removes, and only entries of [save_folder]
    that are listed and not backed by a deployed artifact. *)
Lemma cleanup_spec backup files_on_disk : forall cr w w' r,
  Forall plain files_on_disk ->
  cleanup cfg files_on_disk backup cr w = (w', r) ->
  head_tree (repo w') = head_tree (repo w) /\
  commits (repo w') = commits (repo w) /\
  (forall q, is_dir (fs w') q = is_dir (fs w) q) /\
  exists evs, trace w' = trace w ++ evs /\
    written evs = [] /\ fetched evs = [] /\ committed evs = [] /\
    Forall (fun p => exists n, n ∈ files_on_disk /\ (n ∉ backup) /\
                               p = save_folder cfg ++ [n]) (removed evs) /\
    (forall q, q ∈ removed evs -> fs w' !! q = None) /\
    (forall q, q ∉ removed evs -> fs w' !! q = fs w !! q) /\
    match r with
    | inr cr' =>
        removed evs = ((fun n => save_folder cfg ++ [n])
                         <$> filter (fun n => n ∉ backup) files_on_disk) /\
        (cr' = true <-> cr = true \/ removed evs <> [])
    | inl _ => True
    end.
Proof.
  induction files_on_disk as [|f rest IH]; intros cr w w' r Hplain.
  - intros [= <- <-]. split_and!; try done.
    exists []. rewrite app_nil_r. split_and!; try done.
    + intros q Hq. simpl in Hq. by inversion Hq.
    + split; [by left|by intros [?|?]].
  - apply Forall_cons in Hplain as [Hf Hplain].
    rewrite cleanup_cons. case_bool_decide as Hin.
    { intros Hrun. apply IH in Hrun
        as (Hh & Hc & Hd & evs & Htr & Hw & Hfe & Hco & Hrm & Hgone & Hkeep & Hres);
        [|done].
      split_and!; try done. exists evs. split_and!; try done.
      - eapply Forall_impl; [exact Hrm|]. intros p (n & ? & ? & ?).
        exists n. split; [by apply list_elem_of_further|by split].
      - destruct r as [e|cr']; [done|]. rewrite filter_cons_False by naive_solver.
        done. }
    destruct (os_remove (save_folder cfg) f w) as [w1 r1] eqn:Hrm1.
    apply os_remove_spec in Hrm1
      as [(p & c & Hloc & Hp & -> & ->)|[-> ->]]; cycle 1.
    { intros [= <- <-]. split_and!; try done.
      exists []. rewrite app_nil_r. split_and!; try done.
      intros q Hq. simpl in Hq. by inversion Hq. }
    rewrite (locate_plain _ _ _ Hf) in Hloc.
    destruct (is_dir (fs w) (save_folder cfg)); [|done]. injection Hloc as <-.
    set (p := save_folder cfg ++ [f]) in *.
    set (w1 := mkWorld (delete p (fs w)) (repo w) (trace w ++ [EvRemove p])).
    assert (Hd1 : forall q, is_dir (fs w1) q = is_dir (fs w) q)
      by (intros q; by apply (is_dir_delete_file _ _ c)).
    assert (Hone : Forall (fun p => exists n, n ∈ f :: rest /\ (n ∉ backup) /\
                             p = save_folder cfg ++ [n]) [p]).
    { apply Forall_singleton. exists f. split; [apply list_elem_of_here|by split]. }
    destruct (index_remove f w1) as [w2 r2] eqn:Hix.
    apply index_remove_spec in Hix as (Hfs2 & Hh2 & Hc2 & Hix).
    destruct r2 as [e|[]].
    { intros [= <- <-]. destruct Hix as [[_ ?]|[Htr2 _]]; [done|].
      split_and!; try done; [by intros q; rewrite Hfs2|].
      exists [EvRemove p]. rewrite Htr2, Hfs2. split_and!; try done.
      - intros q Hq. apply list_elem_of_singleton in Hq as ->.
        apply lookup_delete_eq.
      - intros q Hq. apply lookup_delete_ne. set_solver. }
    destruct Hix as [[Htr2 _]|[_ ?]]; [|done].
    intros Hrun. apply IH in Hrun
      as (Hh & Hc & Hd & evs & Htr & Hw & Hfe & Hco & Hrm & Hgone & Hkeep & Hres);
      [|done].
    split; [by rewrite Hh, Hh2|]. split; [by rewrite Hc, Hc2|].
    split; [intros q; by rewrite Hd, Hfs2|].
    exists ([EvRemove p; EvIndexRemove f] ++ evs).
    rewrite written_app, fetched_app, committed_app, removed_app. simpl.
    split_and!; try done.
    + rewrite Htr, Htr2. unfold w1. simpl. by rewrite <-!app_assoc.
    + apply Forall_cons. split; [exists f; split; [apply list_elem_of_here|by split]|].
      eapply Forall_impl; [exact Hrm|]. intros q (n & ? & ? & ?).
      exists n. split; [by apply list_elem_of_further|by split].
    + intros q Hq. destruct (decide (q ∈ removed evs)) as [Hq'|Hq'].
      * by apply Hgone.
      * rewrite Hkeep, Hfs2 by done. apply elem_of_cons in Hq as [->|?]; [|done].
        apply lookup_delete_eq.
    + intros q Hq. rewrite Hkeep, Hfs2 by set_solver.
      apply lookup_delete_ne. set_solver.
    + destruct r as [e|cr']; [done|]. destruct Hres as [-> Hcr].
      rewrite filter_cons_True by done. split; [done|].
      rewrite Hcr. split; [intros _; by right|by left].
Qed.

(** ** The two phases of a run *)

Lemma apply_phase_unfold w :
  apply_phase cfg api w =
  match post_login api with
  | inl (k, msg) => (record EvLogin w, inl (RequestError k msg))
  | inr token =>
      let w0 := record EvListFiles (record EvLogin w) in
      match get_files api token with
      | inl (k, msg) => (w0, inl (RequestError k msg))
      | inr files =>
          let backed := filter (fun f => deployed f = true) files in
          match process_all cfg api token (entry_id <$> backed) false w0 with
          | (w1, inr cr) =>
              cleanup cfg (listdir_files (fs w) (save_folder cfg))
                      (entry_name <$> backed) cr w1
          | (w1, inl e) => (w1, inl e)
          end
      end
  end.
Proof.
  unfold apply_phase, http_login, http_files, os_walk_files, bind, emit,
    lift_response, ret, raise.
  destruct (post_login api) as [[k msg]|token]; [done|].
  destruct (get_files api token) as [[k msg]|files]; [done|]. simpl.
  by destruct (process_all _ _ _ _ _ _) as [w1 [e|cr]].
Qed.

Lemma push_phase_unfold w :
  push_phase cfg api w = (after_push cfg api w, push_result cfg api).
Proof.
  unfold push_phase, after_push, push_result, push_raises, origin_push,
    logger, emit, record, bind, ret, raise.
  destruct (push_to_repo cfg); [|by destruct w; rewrite app_nil_r].
  destruct (git_push api); simpl; by rewrite <-?app_assoc.
Qed.

Lemma commit_phase_unfold cr w :
  commit_phase cfg api now cr w =
  if cr || dirty (save_folder cfg) w
  then (after_push cfg api (after_commit cfg now w), push_result cfg api)
  else (record (EvLog INFO "No changes detected.") w, inr tt).
Proof.
  unfold commit_phase. unfold bind at 1. unfold is_dirty.
  destruct (cr || dirty (save_folder cfg) w); [|done].
  unfold bind, logger, emit, record, git_add_all, index_commit.
  cbn [fs repo trace index head_tree commits].
  rewrite push_phase_unfold. unfold after_commit, commit_message.
  cbn [fs repo trace]. by rewrite <-!app_assoc.
Qed.

Lemma try_body_unfold w :
  try_body cfg api now w =
  match apply_phase cfg api w with
  | (w1, inr cr) => commit_phase cfg api now cr w1
  | (w1, inl e) => (w1, inl e)
  end.
Proof. unfold try_body, bind. by destruct (apply_phase cfg api w) as [w1 [e|cr]]. Qed.

(** After a commit step the repository is clean. *)
Lemma after_commit_clean w : dirty (save_folder cfg) (after_commit cfg now w) = false.
Proof.
  unfold dirty, after_commit. simpl.
  apply orb_false_iff. split; apply bool_decide_eq_false; by intros [].
Qed.

Lemma from_deployed_quiet token fs0 ids evs :
  Forall (from_deployed cfg api token fs0 ids) evs -> removed evs = [] /\ committed evs = [].
Proof.
  induction 1 as [|e evs He _ [IH1 IH2]]; [done|].
  destruct He as [(id & -> & _)|(id & file & p & c & -> & _)]; simpl; by rewrite ?IH1, ?IH2.
Qed.


(** The whole run, relative to its fetch and apply phase. *)
Lemma main_spec w w1 r1 :
  apply_phase cfg api w = (w1, r1) ->
  let w' := (main cfg api now w).1 in
  fs w' = fs w1 /\
  exists evs2, trace w' = trace w1 ++ evs2 /\
    written evs2 = [] /\ removed evs2 = [] /\ fetched evs2 = [] /\
    match r1 with
    | inr cr =>
        if cr || dirty (save_folder cfg) w1
        then committed evs2 = [commit_message now] /\
             repo w' = repo (after_commit cfg now w1) /\
             (main cfg api now w).2 = Some (status_after_commit cfg api)
        else committed evs2 = [] /\ repo w' = repo w1 /\
             (main cfg api now w).2 = Some 0%Z
    | inl e =>
        committed evs2 = [] /\ repo w' = repo w1 /\
        (main cfg api now w).2
          = match e with RequestError _ _ => Some 0%Z | _ => uncaught e end
    end.
Proof.
  intros Hap. unfold main. rewrite try_body_unfold, Hap.
  destruct r1 as [e|cr].
  - destruct e as [k msg| | | | | |]; simpl; split; try done.
    + exists [EvLog ERROR (handler_prefix k +:+ msg)]. by split_and!.
    + exists []. rewrite app_nil_r. by split_and!.
    + exists []. rewrite app_nil_r. by split_and!.
    + exists []. rewrite app_nil_r. by split_and!.
    + exists []. rewrite app_nil_r. by split_and!.
    + exists []. rewrite app_nil_r. by split_and!.
    + exists []. rewrite app_nil_r. by split_and!.
  - rewrite commit_phase_unfold.
    destruct (cr || dirty (save_folder cfg) w1) eqn:Hd; cycle 1.
    { simpl. split; [done|].
      exists [EvLog INFO "No changes detected."]. by split_and!. }
    unfold push_result, status_after_commit, after_push, push_raises.
    destruct (push_to_repo cfg); [destruct (git_push api)|]; simpl;
      (split; [done|]); eexists; (split; [rewrite <-app_assoc; reflexivity|]);
      by split_and!.
Qed.



(** C9 (as amended).  When the fetch loop reaches a deployed artifact
    whose base64-decoded effective payload is not valid UTF-8, what
    happens depends on the local file.  If the artifact is marked for
    write (no local file, or a different digest), the run ends there with
    an uncaught [UnicodeDecodeError] (exit status 1): no commit is made,
    nothing is deleted, and the files written for the artifacts processed
    before are left as written.  If the local file has the remote digest,
    the payload is never decoded: the call returns [False], no error is
    raised, and the loop goes on. *)
Theorem undecodable_payload_aborts token files pre id post file raw w wb cr :
  post_login api = inr token ->
  get_files api token = inr files ->
  entry_id <$> filter (fun f => deployed f = true) files = pre ++ id :: post ->
  process_all cfg api token pre false (record EvListFiles (record EvLogin w))
    = (wb, inr cr) ->
  get_file api token id = inr file ->
  Base64.b64decode (effective_payload file) = Some raw ->
  Utf8.decode raw = None ->
  (~ up_to_date (fs wb) (save_folder cfg) (file_name file) (file_sha file) ->
   resolve (fs wb) (save_folder cfg) (file_name file) <> inl Unmodelled ->
   exists wc evs,
     try_body cfg api now w = (wc, inl UnicodeDecodeError) /\
     main cfg api now w = (wc, Some 1%Z) /\
     fs wc = fs wb /\ repo wc = repo w /\
     trace wc = trace w ++ evs /\ committed evs = [] /\ removed evs = []) /\
  (up_to_date (fs wb) (save_folder cfg) (file_name file) (file_sha file) ->
   exists evs,
     process_all cfg api token (pre ++ [id]) false
       (record EvListFiles (record EvLogin w))
       = (mkWorld (fs wb) (repo wb) (trace wb ++ evs), inr cr) /\
     effects evs = [EvGetFile id]).
Proof.
  intros Hlogin Hlist Hids Hpre Hget Hb64 Hutf.
  assert (Hdec : decode_payload (effective_payload file) = inl UnicodeDecodeError).
  { unfold decode_payload. by rewrite Hb64, Hutf. }
  split; cycle 1.
  { intros Hup. rewrite process_all_app, Hpre, process_all_cons, Hget.
    destruct (process_file_skip file (save_folder cfg) (record (EvGetFile id) wb) Hup)
      as (evs & -> & Hev).
    exists (EvGetFile id :: evs). simpl. rewrite Hev.
    split; [by rewrite <-app_assoc|done]. }
  intros Hstale Hin.
  destruct (process_file file (save_folder cfg) (record (EvGetFile id) wb))
    as [wc rc] eqn:Hpf.
  pose proof (process_file_spec _ _ _ _ _ Hpf) as Hcase.
  assert (rc = inl UnicodeDecodeError /\ fs wc = fs wb /\ repo wc = repo wb /\
          exists evs, trace wc = trace wb ++ evs /\ effects evs = [EvGetFile id])
    as (-> & Hfs & Hrepo & evsc & Htrc & Hevc).
  { destruct Hcase as [p c evs Hloc Hp Hsha _ _
                      |p source evs _ Hdec' _ _ _ _
                      |e evs _ Hwc Hev Hwhy]; simpl in *.
    - exfalso. apply Hstale. by exists p, c.
    - congruence.
    - unfold raised in Hwhy. rewrite Hdec in Hwhy.
      assert (e = UnicodeDecodeError) as ->.
      { destruct (resolve (fs wb) (save_folder cfg) (file_name file)) as [[]|p];
          by (injection Hwhy as <-) || (by destruct Hin). }
      rewrite Hwc. simpl. split_and!; try done.
      exists (EvGetFile id :: evs). split; [by rewrite <-app_assoc|].
      simpl. by rewrite Hev. }
  assert (Hap : apply_phase cfg api w = (wc, inl UnicodeDecodeError)).
  { rewrite apply_phase_unfold, Hlogin, Hlist. cbn zeta.
    by rewrite Hids, process_all_app, Hpre, process_all_cons, Hget, Hpf. }
  apply process_all_spec in Hpre
    as (Hrepo1 & _ & _ & evs1 & Htr1 & Hev1 & _ & _).
  pose proof (from_deployed_quiet _ _ _ _ Hev1) as [Hrm1 Hco1].
  rewrite removed_effects in Hrm1. rewrite committed_effects in Hco1.
  exists wc, ([EvLogin; EvListFiles] ++ evs1 ++ evsc).
  rewrite !committed_app, !removed_app. simpl.
  rewrite Hrm1, Hco1, <-(removed_effects evsc), <-(committed_effects evsc), Hevc.
  split_and!; try done.
  - by rewrite try_body_unfold, Hap.
  - unfold main. by rewrite try_body_unfold, Hap.
  - by rewrite Hrepo, Hrepo1.
  - by rewrite Htrc, Htr1; unfold record; simpl; rewrite <-!app_assoc.
Qed.

(** C10.  A request error (HTTP status, connection, timeout or any other
    [RequestException]) raised in the fetch and apply phase is caught:
    the run logs it at level ERROR under the heading of its [except]
    clause, does nothing else, and the process exits with status 0. *)
Theorem request_errors_exit_zero w w' k msg :
  apply_phase cfg api w = (w', inl (RequestError k msg)) ->
  main cfg api now w
    = (record (EvLog ERROR (handler_prefix k +:+ msg)) w', Some 0%Z).
Proof. intros Hap. unfold main. by rewrite try_body_unfold, Hap. Qed.

(** The request errors of the three kinds of calls are raised as such. *)
Lemma login_failure_raises w k msg :
  post_login api = inl (k, msg) ->
  apply_phase cfg api w = (record EvLogin w, inl (RequestError k msg)).
Proof. intros H. by rewrite apply_phase_unfold, H. Qed.

Lemma listing_failure_raises w token k msg :
  post_login api = inr token ->
  get_files api token = inl (k, msg) ->
  apply_phase cfg api w
    = (record EvListFiles (record EvLogin w), inl (RequestError k msg)).
Proof. intros H1 H2. by rewrite apply_phase_unfold, H1, H2. Qed.

Lemma retrieval_failure_raises token id rest cr w k msg :
  get_file api token id = inl (k, msg) ->
  process_all cfg api token (id :: rest) cr w
    = (record (EvGetFile id) w, inl (RequestError k msg)).
Proof. intros H. by rewrite process_all_cons, H. Qed.

(** ** Idempotence *)

Lemma process_all_makes_current token fl : forall cr w w' cr',
  process_all cfg api token (entry_id <$> fl) cr w = (w', inr cr') ->
  NoDup (entry_name <$> fl) ->
  Forall (faithful api token) fl ->
  Forall (current cfg api token w') fl.
Proof.
  induction fl as [|f fl IH]; intros cr w w' cr' Hrun Hnd Hfaith; [done|].
  rewrite fmap_cons in Hrun. rewrite fmap_cons in Hnd.
  rewrite process_all_cons in Hrun.
  apply NoDup_cons in Hnd as [Hfresh Hnd].
  apply Forall_cons in Hfaith as [Hf Hfaith].
  destruct (get_file api token (entry_id f)) as [[k msg]|file] eqn:Hget; [done|].
  destruct (Hf file Hget) as (Hname & Hplain & Hsha).
  destruct (process_file file (save_folder cfg) (record (EvGetFile (entry_id f)) w))
    as [w1 [e|changed]] eqn:Hpf; [done|].
  apply process_file_makes_current in Hpf; [|done].
  apply Forall_cons. split; [|by eapply IH].
  exists file. split; [done|].
  apply process_all_spec in Hrun
    as (_ & Hdirs & _ & evs & _ & Hev & Hout & _).
  apply (up_to_date_preserved (fs w1)); [done| |done].
  intros p Hloc. apply Hout. rewrite <-written_effects.
  intros (c & Hc)%elem_of_written.
  apply (proj1 (Forall_forall _ _) Hev) in Hc
    as [(? & [=] & _)|(id & file' & p' & c' & [= <- <-] & Hid & Hget' & Hloc')].
  apply list_elem_of_fmap in Hid as (g & -> & Hg).
  destruct (proj1 (Forall_forall _ _) Hfaith g Hg file' Hget') as (Hname' & Hplain' & _).
  rewrite Hname in Hloc. apply resolve_plain_inr in Hloc as (-> & _); [|done].
  rewrite Hname' in Hloc'. apply resolve_plain_inr in Hloc' as (Heq & _); [|done].
  apply app_inv_head in Heq. injection Heq as Heq.
  apply Hfresh. rewrite Heq. by apply list_elem_of_fmap_2.
Qed.

(** A second pass over artifacts that are all up to date fetches each of
    them, reads its file and touches nothing. *)
Lemma process_all_skips token fl : forall cr w,
  Forall (current cfg api token w) fl ->
  exists evs,
    process_all cfg api token (entry_id <$> fl) cr w
      = (mkWorld (fs w) (repo w) (trace w ++ evs), inr cr) /\
    written evs = [] /\ removed evs = [] /\ committed evs = [].
Proof.
  induction fl as [|f fl IH]; intros cr w Hcur.
  - exists []. rewrite app_nil_r. by destruct w.
  - apply Forall_cons in Hcur as [(file & Hget & Hup) Hcur].
    rewrite fmap_cons, process_all_cons, Hget.
    destruct (process_file_skip file (save_folder cfg)
                (record (EvGetFile (entry_id f)) w) Hup) as (evs1 & -> & Hev1).
    simpl.
    destruct (IH cr (mkWorld (fs w) (repo w)
                       ((trace w ++ [EvGetFile (entry_id f)]) ++ evs1)))
      as (evs2 & -> & Hw2 & Hr2 & Hc2).
    { eapply Forall_impl; [exact Hcur|]. by intros g (file' & ? & ?); exists file'. }
    simpl. exists ([EvGetFile (entry_id f)] ++ evs1 ++ evs2).
    rewrite !written_app, !removed_app, !committed_app, Hw2, Hr2, Hc2.
    rewrite <-(written_effects evs1), <-(removed_effects evs1),
      <-(committed_effects evs1), Hev1.
    split; [by rewrite <-!app_assoc|done].
Qed.

Lemma cleanup_noop backup files_on_disk cr w :
  files_on_disk ⊆ backup ->
  cleanup cfg files_on_disk backup cr w = (w, inr cr).
Proof.
  induction files_on_disk as [|f rest IH]; intros Hsub; [done|].
  rewrite cleanup_cons, bool_decide_eq_true_2 by (apply Hsub, list_elem_of_here).
  apply IH. intros x Hx. by apply Hsub, list_elem_of_further.
Qed.

Lemma dirty_ext w w' :
  fs w' = fs w -> repo w' = repo w ->
  dirty (save_folder cfg) w' = dirty (save_folder cfg) w.
Proof. intros Hf Hr. unfold dirty. by rewrite Hf, Hr. Qed.

(** What a completed run leaves behind: every deployed artifact up to
    date, no top-level file that no deployed artifact backs, and a clean
    repository. *)
Lemma completed_run_settles token files w w1 :
  post_login api = inr token ->
  get_files api token = inr files ->
  let backed := filter (fun f => deployed f = true) files in
  NoDup (entry_name <$> backed) ->
  Forall (faithful api token) backed ->
  try_body cfg api now w = (w1, inr tt) ->
  Forall (current cfg api token w1) backed /\
  listdir_files (fs w1) (save_folder cfg) ⊆ entry_name <$> backed /\
  dirty (save_folder cfg) w1 = false.
Proof.
  intros Hlogin Hlist backed Hnd Hfaith Hrun.
  rewrite try_body_unfold in Hrun.
  destruct (apply_phase cfg api w) as [wb [e|cr]] eqn:Hap; [done|].
  rewrite apply_phase_unfold, Hlogin, Hlist in Hap. cbn zeta in Hap.
  fold backed in Hap.
  destruct (process_all cfg api token (entry_id <$> backed) false _)
    as [wa [e|cr0]] eqn:Hpa; [done|].
  pose proof (process_all_makes_current _ _ _ _ _ _ Hpa Hnd Hfaith) as Hcur_a.
  apply process_all_spec in Hpa
    as (_ & Hdirs_a & _ & evs1 & _ & Hev1 & Hout1 & _).
  apply cleanup_spec in Hap
    as (_ & _ & Hdirs_b & evs2 & _ & _ & _ & _ & Hrm & Hgone & Hkeep & Hrm_eq & _);
    [|apply listdir_files_plain].
  assert (Hlocal : forall f file fs0 p, f ∈ backed ->
            get_file api token (entry_id f) = inr file ->
            resolve fs0 (save_folder cfg) (file_name file) = inr p ->
            p = save_folder cfg ++ [entry_name f]).
  { intros f file fs0 p Hf Hget Hres.
    destruct (proj1 (Forall_forall _ _) Hfaith f Hf file Hget) as (Hname & Hpl & _).
    rewrite Hname in Hres. by apply resolve_plain_inr in Hres as (-> & _). }
  assert (Hcur_b : Forall (current cfg api token wb) backed).
  { apply Forall_forall. intros f Hf.
    destruct (proj1 (Forall_forall _ _) Hcur_a f Hf) as (file & Hget & Hup).
    exists file. split; [done|].
    apply (up_to_date_preserved (fs wa)); [done| |done].
    intros p Hloc. apply Hkeep. intros Hp.
    apply (proj1 (Forall_forall _ _) Hrm) in Hp as (n & _ & Hn & ->).
    apply (Hlocal f file _ _ Hf Hget) in Hloc.
    apply app_inv_head in Hloc. injection Hloc as ->.
    apply Hn. by apply list_elem_of_fmap_2. }
  assert (Hlist_b : listdir_files (fs wb) (save_folder cfg) ⊆ entry_name <$> backed).
  { intros n Hn. apply elem_of_listdir_files in Hn as (Hd & Hpl & c & Hc).
    set (q := save_folder cfg ++ [n]) in *.
    destruct (decide (n ∈ entry_name <$> backed)) as [|Hnb]; [done|exfalso].
    assert (Hq : q ∉ removed evs2) by (intros Hq%Hgone; congruence).
    rewrite (Hkeep q Hq) in Hc.
    destruct (decide (q ∈ written evs1)) as [Hw|Hw].
    - rewrite <-written_effects in Hw. apply elem_of_written in Hw as [c' Hw].
      apply (proj1 (Forall_forall _ _) Hev1) in Hw
        as [(? & [=] & _)|(id & file & p' & c'' & [= <- <-] & Hid & Hget & Hloc)].
      apply list_elem_of_fmap in Hid as (f & -> & Hf).
      apply (Hlocal f file _ _ Hf Hget) in Hloc.
      apply app_inv_head in Hloc. injection Hloc as ->.
      apply Hnb. by apply list_elem_of_fmap_2.
    - rewrite (Hout1 q Hw) in Hc. simpl in Hc.
      assert (Hin : n ∈ listdir_files (fs w) (save_folder cfg)).
      { apply elem_of_listdir_files. split_and!; [|done|by exists c].
        rewrite <-Hd, Hdirs_b, Hdirs_a. done. }
      apply Hq. rewrite Hrm_eq. apply list_elem_of_fmap. exists n.
      split; [done|]. by apply list_elem_of_filter. }
  rewrite commit_phase_unfold in Hrun.
  destruct (cr || dirty (save_folder cfg) wb) eqn:Hd.
  - injection Hrun as <- _. split_and!; [done..|].
    rewrite <-(after_commit_clean wb). by apply dirty_ext.
  - injection Hrun as <-. apply orb_false_iff in Hd as [_ Hd]. by split_and!.
Qed.

(** C4 (as amended).  Let the deployed artifacts have pairwise distinct
    names, each a plain file name that is also the name in the retrieved
    description, and each remote digest be the SHA-256 of the bytes the
    payload is written as.  Then, after a run that completes, a second
    run against the same remote writes nothing, deletes nothing, has
    [commit_required] false, commits nothing and leaves the files and the
    repository as they are. *)
Theorem second_run_is_noop token files w w1 :
  post_login api = inr token ->
  get_files api token = inr files ->
  let backed := filter (fun f => deployed f = true) files in
  NoDup (entry_name <$> backed) ->
  Forall (faithful api token) backed ->
  try_body cfg api now w = (w1, inr tt) ->
  exists evs wa,
    main cfg api now w1 = (mkWorld (fs w1) (repo w1) (trace w1 ++ evs), Some 0%Z) /\
    apply_phase cfg api w1 = (wa, inr false) /\
    written evs = [] /\ removed evs = [] /\ committed evs = [].
Proof.
  intros Hlogin Hlist backed Hnd Hfaith Hrun.
  destruct (completed_run_settles _ _ _ _ Hlogin Hlist Hnd Hfaith Hrun)
    as (Hcur & Hsub & Hclean).
  fold backed in Hcur, Hsub.
  set (w0 := record EvListFiles (record EvLogin w1)).
  destruct (process_all_skips token backed false w0) as (evs & Hpa & Hw & Hr & Hc).
  { eapply Forall_impl; [exact Hcur|]. by intros g (file & ? & ?); exists file. }
  set (wa := mkWorld (fs w0) (repo w0) (trace w0 ++ evs)) in *.
  assert (Hap : apply_phase cfg api w1 = (wa, inr false)).
  { rewrite apply_phase_unfold, Hlogin, Hlist. cbn zeta.
    fold backed w0. rewrite Hpa. by apply cleanup_noop. }
  exists ([EvLogin; EvListFiles] ++ evs ++ [EvLog INFO "No changes detected."]), wa.
  rewrite !written_app, !removed_app, !committed_app, Hw, Hr, Hc.
  split_and!; try done.
  unfold main. rewrite try_body_unfold, Hap, commit_phase_unfold.
  rewrite (dirty_ext w1 wa), Hclean by done. simpl.
  unfold record. simpl. by rewrite <-!app_assoc.
Qed.

End Run.


(* ===================================================================== *)
(** ** Concrete runs *)

(** The digests used in the scenarios are the digests of the contents. *)
Example scenario_digests :
  Sha256.hexdigest (bytes_of_string "A") = Scenario.sha_A /\
  Sha256.hexdigest (bytes_of_string "B") = Scenario.sha_B /\
  Sha256.hexdigest [xff] = Scenario.sha_ff /\
  Sha256.hexdigest [] = Scenario.sha_empty.
Proof. cbv zeta. split_and!; vm_compute; reflexivity. Qed.

(** The end-to-end scenario of the specification: [b.vcl] is written,
    [c.vcl] is deleted, [a.vcl] is left alone, one commit is made; after
    it the mirror holds [a.vcl] and [b.vcl] and no other file, and a second
    run does nothing. *)
Example end_to_end :
  let r := main Scenario.cfg Scenario.api Scenario.now Scenario.world0 in
  r.2 = Some 0%Z /\
  effects (trace r.1)
    = [EvLogin; EvListFiles; EvGetFile 1; EvGetFile 2;
       EvWrite (Scenario.root ++ ["b.vcl"]) (bytes_of_string "B");
       EvRemove (Scenario.root ++ ["c.vcl"]); EvIndexRemove "c.vcl";
       EvAddAll; EvCommit "Updated configs at 2024-05-01 12:00"] /\
  fs r.1 !! (Scenario.root ++ ["a.vcl"]) = Some (File (bytes_of_string "A")) /\
  fs r.1 !! (Scenario.root ++ ["b.vcl"]) = Some (File (bytes_of_string "B")) /\
  fs r.1 !! (Scenario.root ++ ["c.vcl"]) = None /\
  length (listdir_files (fs r.1) Scenario.root) = 2 /\
  effects (trace (Scenario.second_run Scenario.api Scenario.world0).1)
    = [EvLogin; EvListFiles; EvGetFile 1; EvGetFile 2].
Proof. cbv zeta. split_and!; vm_compute; reflexivity. Qed.

Lemma scenario_faithful :
  Forall (faithful Scenario.api "token")
         [mkEntry 1 "a.vcl" true; mkEntry 2 "b.vcl" true].
Proof.
  repeat apply Forall_cons_2; [| |apply Forall_nil_2];
    intros file Hget; vm_compute in Hget; injection Hget as <-;
    (split; [reflexivity|]); (split; [by vm_compute|]);
    intros source Hdec; vm_compute in Hdec; injection Hdec as <-;
    vm_compute; reflexivity.
Defined.

(** Witness for C4, on the end-to-end scenario. *)
Lemma second_run_is_noop_witness :
  let w1 := (try_body Scenario.cfg Scenario.api Scenario.now Scenario.world0).1 in
  exists evs wa,
    main Scenario.cfg Scenario.api Scenario.now w1
      = (mkWorld (fs w1) (repo w1) (trace w1 ++ evs), Some 0%Z) /\
    apply_phase Scenario.cfg Scenario.api w1 = (wa, inr false) /\
    written evs = [] /\ removed evs = [] /\ committed evs = [].
Proof.
  intros w1.
  apply (second_run_is_noop Scenario.cfg Scenario.api Scenario.now "token"
           [mkEntry 1 "a.vcl" true; mkEntry 2 "b.vcl" true; mkEntry 3 "old.vcl" false]
           Scenario.world0 w1 eq_refl eq_refl).
  - apply (bool_decide_unpack (NoDup ["a.vcl"; "b.vcl"])). vm_compute. exact I.
  - exact scenario_faithful.
  - vm_compute; reflexivity.
Defined.


(** Witness for C9: the payload 0xff with no local file. *)
Lemma undecodable_payload_aborts_witness :
  let w := Scenario.clean_world [] in
  exists wc evs,
    try_body Scenario.cfg Scenario.api_binary Scenario.now w
      = (wc, inl UnicodeDecodeError) /\
    main Scenario.cfg Scenario.api_binary Scenario.now w = (wc, Some 1%Z) /\
    fs wc = fs (record EvListFiles (record EvLogin w)) /\ repo wc = repo w /\
    trace wc = trace w ++ evs /\ committed evs = [] /\ removed evs = [].
Proof.
  intros w.
  apply (proj1 (undecodable_payload_aborts Scenario.cfg Scenario.api_binary Scenario.now
                  "token" [mkEntry 1 "bin.vcl" true] [] 1%Z [] Scenario.art_ff [xff]
                  w (record EvListFiles (record EvLogin w)) false eq_refl eq_refl
                  eq_refl eq_refl eq_refl eq_refl eq_refl)).
  - intros (p & c & Hloc & Hp & _). vm_compute in Hloc. injection Hloc as <-.
    vm_compute in Hp. discriminate Hp.
  - vm_compute. discriminate.
Defined.

(** Witness for C10: the login request fails to connect. *)
Lemma request_errors_exit_zero_witness :
  let w := Scenario.clean_world [] in
  main Scenario.cfg Scenario.api_down Scenario.now w
  = (record (EvLog ERROR "Connection error: Connection refused") (record EvLogin w),
     Some 0%Z).
Proof.
  intros w.
  apply (request_errors_exit_zero Scenario.cfg Scenario.api_down Scenario.now
           w (record EvLogin w) ConnectionError "Connection refused").
  vm_compute; reflexivity.
Defined.

(** C4, as stated, fails.  In each of four runs from an empty, clean
    mirror the first run completes and the second run, against the same
    remote, sets [commit_required]: it writes again when the remote
    digest is not the digest of what is written or when two deployed
    artifacts share a name, and it deletes what the first run wrote when
    the name is not a plain file name or differs from the listed one. *)
Lemma second_run_not_noop :
  let w := Scenario.clean_world [] in
  let first api := (try_body Scenario.cfg api Scenario.now w).2 in
  let again api := Scenario.second_run api w in
  (first Scenario.api_foreign_digest = inr tt /\
   (again Scenario.api_foreign_digest).2 = inr true /\
   written (trace (again Scenario.api_foreign_digest).1) = [Scenario.root ++ ["a.vcl"]]) /\
  (first Scenario.api_same_name = inr tt /\
   (again Scenario.api_same_name).2 = inr true /\
   written (trace (again Scenario.api_same_name).1)
     = [Scenario.root ++ ["a.vcl"]; Scenario.root ++ ["a.vcl"]]) /\
  (first Scenario.api_dot_name = inr tt /\
   (again Scenario.api_dot_name).2 = inr true /\
   removed (trace (again Scenario.api_dot_name).1) = [Scenario.root ++ ["a.vcl"]]) /\
  (first Scenario.api_renamed = inr tt /\
   (again Scenario.api_renamed).2 = inr true /\
   removed (trace (again Scenario.api_renamed).1) = [Scenario.root ++ ["b.vcl"]]).
Proof. cbv zeta. split_and!; vm_compute; reflexivity. Qed.



(** C9, as stated, fails.  The effective payload of the deployed artifact
    [bin.vcl] is not valid UTF-8, yet no decoding error is raised and the
    process exits with status 0: in the first run the local file has the
    remote digest, so the payload is never decoded; in the second run, from
    an empty mirror, the retrieval of an earlier artifact fails and the
    run is over (with a caught request error) before [bin.vcl] is fetched. *)
Lemma undecodable_payload_can_pass :
  let r := try_body Scenario.cfg Scenario.api_binary Scenario.now Scenario.world_binary in
  let r' := try_body Scenario.cfg Scenario.api_binary_late Scenario.now
              (Scenario.clean_world []) in
  decode_payload (effective_payload Scenario.art_ff) = inl UnicodeDecodeError /\
  r.2 = inr tt /\
  (main Scenario.cfg Scenario.api_binary Scenario.now Scenario.world_binary).2
    = Some 0%Z /\
  effects (trace r.1) = [EvLogin; EvListFiles; EvGetFile 1] /\
  r'.2 = inl (RequestError HTTPError "404 Client Error") /\
  (main Scenario.cfg Scenario.api_binary_late Scenario.now (Scenario.clean_world [])).2
    = Some 0%Z /\
  effects (trace r'.1) = [EvLogin; EvListFiles; EvGetFile 7].
Proof. cbv zeta. split_and!; vm_compute; reflexivity. Qed.

(* ===================================================================== *)
(** ** The UTF-8 codec: encoding undoes decoding *)

Section Utf8RoundTrip.
Import Utf8.
Local Open Scope Z_scope.

(** Bit operations on disjoint bit ranges as arithmetic. *)
Lemma lor_shiftl_add h n b :
  0 <= n -> 0 <= b < 2 ^ n -> Z.lor (Z.shiftl h n) b = h * 2 ^ n + b.
Proof.
  intros Hn Hb.
  assert (Hdisj : Z.land (Z.shiftl h n) b = 0).
  { apply Z.bits_inj'. intros i Hi. rewrite Z.land_spec, Z.bits_0.
    destruct (Z.lt_ge_cases i n) as [Hlt|Hge].
    - by rewrite Z.shiftl_spec_low.
    - assert (Z.testbit b i = false) as ->; [|apply andb_false_r].
      destruct (Z.eq_dec b 0) as [->|Hb0]; [apply Z.bits_0|].
      apply Z.bits_above_log2; [lia|].
      assert (Z.log2 b < n); [|lia]. apply Z.log2_lt_pow2; lia. }
  rewrite <-Z.lxor_lor, <-Z.add_nocarry_lxor, Z.shiftl_mul_pow2 by done. done.
Qed.

Ltac dlia := Z.div_mod_to_equations; lia.

Lemma lor_shl6 h b : 0 <= b < 64 -> Z.lor (Z.shiftl h 6) b = h * 64 + b.
Proof. intros Hb. by rewrite lor_shiftl_add. Qed.

Lemma lor_shl12 h b : 0 <= b < 4096 -> Z.lor (Z.shiftl h 12) b = h * 4096 + b.
Proof. intros Hb. by rewrite lor_shiftl_add. Qed.

Lemma lor_shl18 h b : 0 <= b < 262144 -> Z.lor (Z.shiftl h 18) b = h * 262144 + b.
Proof. intros Hb. by rewrite lor_shiftl_add. Qed.

Lemma low6_mod b : low6 b = b mod 64.
Proof. unfold low6. change 0x3f with (Z.ones 6). by rewrite Z.land_ones. Qed.

Lemma land_1f b : Z.land b 0x1f = b mod 32.
Proof. change 0x1f with (Z.ones 5). by rewrite Z.land_ones. Qed.

Lemma land_0f b : Z.land b 0x0f = b mod 16.
Proof. change 0x0f with (Z.ones 4). by rewrite Z.land_ones. Qed.

Lemma land_07 b : Z.land b 0x07 = b mod 8.
Proof. change 0x07 with (Z.ones 3). by rewrite Z.land_ones. Qed.

Lemma lor_80 x : 0 <= x < 64 -> Z.lor 0x80 x = 128 + x.
Proof. intros Hx. change 0x80 with (Z.shiftl 2 6). by rewrite lor_shl6. Qed.

Lemma lor_c0 x : 0 <= x < 32 -> Z.lor 0xc0 x = 192 + x.
Proof. intros Hx. change 0xc0 with (Z.shiftl 6 5). by rewrite lor_shiftl_add. Qed.

Lemma lor_e0 x : 0 <= x < 16 -> Z.lor 0xe0 x = 224 + x.
Proof. intros Hx. change 0xe0 with (Z.shiftl 14 4). by rewrite lor_shiftl_add. Qed.

Lemma lor_f0 x : 0 <= x < 8 -> Z.lor 0xf0 x = 240 + x.
Proof. intros Hx. change 0xf0 with (Z.shiftl 30 3). by rewrite lor_shiftl_add. Qed.

Lemma within_spec lo hi x : within lo hi x = true <-> lo <= x <= hi.
Proof. unfold within. rewrite andb_true_iff, !Z.leb_le. done. Qed.

Lemma cont_spec b : cont b = true <-> 128 <= b <= 191.
Proof. apply within_spec. Qed.

(** The code point of a sequence of two, three and four bytes. *)
Lemma two_bytes_value b0 b1 :
  194 <= b0 <= 223 -> 128 <= b1 <= 191 ->
  Z.lor (Z.shiftl (Z.land b0 0x1f) 6) (low6 b1) = (b0 - 192) * 64 + (b1 - 128).
Proof.
  intros H0 H1. rewrite land_1f, low6_mod, lor_shl6 by dlia. dlia.
Qed.

Lemma three_bytes_value b0 b1 b2 :
  224 <= b0 <= 239 -> 128 <= b1 <= 191 -> 128 <= b2 <= 191 ->
  Z.lor (Z.shiftl (Z.land b0 0x0f) 12) (Z.lor (Z.shiftl (low6 b1) 6) (low6 b2))
  = (b0 - 224) * 4096 + (b1 - 128) * 64 + (b2 - 128).
Proof.
  intros H0 H1 H2. rewrite land_0f, !low6_mod.
  rewrite lor_shl6, lor_shl12 by dlia. dlia.
Qed.

Lemma four_bytes_value b0 b1 b2 b3 :
  240 <= b0 <= 244 -> 128 <= b1 <= 191 -> 128 <= b2 <= 191 -> 128 <= b3 <= 191 ->
  Z.lor (Z.shiftl (Z.land b0 0x07) 18)
    (Z.lor (Z.shiftl (low6 b1) 12) (Z.lor (Z.shiftl (low6 b2) 6) (low6 b3)))
  = (b0 - 240) * 262144 + (b1 - 128) * 4096 + (b2 - 128) * 64 + (b3 - 128).
Proof.
  intros H0 H1 H2 H3. rewrite land_07, !low6_mod.
  rewrite lor_shl6, lor_shl12, lor_shl18 by dlia. dlia.
Qed.

(** [encode_cp] on the ranges of two, three and four bytes. *)
Lemma encode_cp_two c :
  128 <= c < 2048 -> encode_cp c = [192 + c / 64; 128 + c mod 64].
Proof.
  intros Hc. unfold encode_cp.
  destruct (Z.ltb_spec c 0x80); [dlia|]. destruct (Z.ltb_spec c 0x800); [|dlia].
  rewrite low6_mod, Z.shiftr_div_pow2 by dlia. change (2 ^ 6) with 64.
  rewrite lor_c0, lor_80 by dlia. done.
Qed.

Lemma encode_cp_three c :
  2048 <= c < 65536 ->
  encode_cp c = [224 + c / 4096; 128 + (c / 64) mod 64; 128 + c mod 64].
Proof.
  intros Hc. unfold encode_cp.
  destruct (Z.ltb_spec c 0x80); [dlia|]. destruct (Z.ltb_spec c 0x800); [dlia|].
  destruct (Z.ltb_spec c 0x10000); [|dlia].
  rewrite !low6_mod, !Z.shiftr_div_pow2 by dlia.
  change (2 ^ 6) with 64. change (2 ^ 12) with 4096.
  rewrite lor_e0, !lor_80 by dlia. done.
Qed.

Lemma encode_cp_four c :
  65536 <= c < 2097152 ->
  encode_cp c = [240 + c / 262144; 128 + (c / 4096) mod 64;
                 128 + (c / 64) mod 64; 128 + c mod 64].
Proof.
  intros Hc. unfold encode_cp.
  destruct (Z.ltb_spec c 0x80); [dlia|]. destruct (Z.ltb_spec c 0x800); [dlia|].
  destruct (Z.ltb_spec c 0x10000); [dlia|].
  rewrite !low6_mod, !Z.shiftr_div_pow2 by dlia.
  change (2 ^ 6) with 64. change (2 ^ 12) with 4096. change (2 ^ 18) with 262144.
  rewrite lor_f0, !lor_80 by dlia. done.
Qed.

(** A well-formed sequence is encoded back to itself. *)
Lemma encode_two b0 b1 :
  within 0xc2 0xdf b0 = true -> cont b1 = true ->
  encode_cp (Z.lor (Z.shiftl (Z.land b0 0x1f) 6) (low6 b1)) = [b0; b1].
Proof.
  intros G0%within_spec G1%cont_spec.
  rewrite two_bytes_value, encode_cp_two by dlia. f_equal; [dlia|]. f_equal. dlia.
Qed.

Lemma encode_three b0 b1 b2 :
  within 0xe0 0xef b0 = true ->
  within (if b0 =? 0xe0 then 0xa0 else 0x80) (if b0 =? 0xed then 0x9f else 0xbf) b1 = true ->
  cont b2 = true ->
  encode_cp (Z.lor (Z.shiftl (Z.land b0 0x0f) 12) (Z.lor (Z.shiftl (low6 b1) 6) (low6 b2)))
  = [b0; b1; b2].
Proof.
  intros G0%within_spec G1%within_spec G2%cont_spec.
  assert (128 <= b1 <= 191 /\ (b0 = 224 -> 160 <= b1)) as [H1 H1'].
  { destruct (Z.eqb_spec b0 0xe0), (Z.eqb_spec b0 0xed); dlia. }
  rewrite three_bytes_value, encode_cp_three by dlia.
  f_equal; [dlia|]. f_equal; [dlia|]. f_equal. dlia.
Qed.

Lemma encode_four b0 b1 b2 b3 :
  within 0xf0 0xf4 b0 = true ->
  within (if b0 =? 0xf0 then 0x90 else 0x80) (if b0 =? 0xf4 then 0x8f else 0xbf) b1 = true ->
  cont b2 = true -> cont b3 = true ->
  encode_cp (Z.lor (Z.shiftl (Z.land b0 0x07) 18)
               (Z.lor (Z.shiftl (low6 b1) 12) (Z.lor (Z.shiftl (low6 b2) 6) (low6 b3))))
  = [b0; b1; b2; b3].
Proof.
  intros G0%within_spec G1%within_spec G2%cont_spec G3%cont_spec.
  assert (128 <= b1 <= 191 /\ (b0 = 240 -> 144 <= b1)) as [H1 H1'].
  { destruct (Z.eqb_spec b0 0xf0), (Z.eqb_spec b0 0xf4); dlia. }
  rewrite four_bytes_value, encode_cp_four by dlia.
  f_equal; [dlia|]. f_equal; [dlia|]. f_equal; [dlia|]. f_equal. dlia.
Qed.

Lemma decode_vals_encode n : forall l t,
  (length l <= n)%nat -> decode_vals l = Some t -> t ≫= encode_cp = l.
Proof.
  induction n as [|n IH]; intros l t Hlen Hdec.
  { destruct l; [|simpl in Hlen; lia]. by injection Hdec as <-. }
  destruct l as [|b0 r0]; [by injection Hdec as <-|].
  cbn [decode_vals] in Hdec.
  destruct (b0 <? 0x80) eqn:G.
  { destruct (decode_vals r0) as [t'|] eqn:Hr; [|done]. injection Hdec as <-.
    cbn [mbind list_bind]. unfold encode_cp at 1. rewrite G. simpl. f_equal.
    apply IH; [simpl in Hlen; lia|done]. }
  destruct r0 as [|b1 r1]; [done|].
  destruct (within 0xc2 0xdf b0) eqn:G0.
  { destruct (cont b1) eqn:G1; [|done].
    destruct (decode_vals r1) as [t'|] eqn:Hr; [|done]. injection Hdec as <-.
    cbn [mbind list_bind]. rewrite encode_two by done. simpl. do 2 f_equal.
    apply IH; [simpl in Hlen; lia|done]. }
  destruct r1 as [|b2 r2]; [done|].
  destruct (within 0xe0 0xef b0) eqn:G0'.
  { destruct (within _ _ b1 && cont b2) eqn:G12; [|done].
    apply andb_true_iff in G12 as [G1 G2].
    destruct (decode_vals r2) as [t'|] eqn:Hr; [|done]. injection Hdec as <-.
    cbn [mbind list_bind]. rewrite encode_three by done. simpl. do 3 f_equal.
    apply IH; [simpl in Hlen; lia|done]. }
  destruct r2 as [|b3 r3]; [done|].
  destruct (within 0xf0 0xf4 b0 && _ && cont b2 && cont b3) eqn:G4; [|done].
  apply andb_true_iff in G4 as [G4 G3]. apply andb_true_iff in G4 as [G4 G2].
  apply andb_true_iff in G4 as [G0'' G1].
  destruct (decode_vals r3) as [t'|] eqn:Hr; [|done]. injection Hdec as <-.
  cbn [mbind list_bind]. rewrite encode_four by done. simpl. do 4 f_equal.
  apply IH; [simpl in Hlen; lia|done].
Qed.

Lemma byte_of_Z_val b : byte_of_Z (Sha256.byte_val b) = b.
Proof.
  unfold byte_of_Z, Sha256.byte_val. pose proof (Byte.to_N_bounded b).
  rewrite Z.mod_small by lia. by rewrite N2Z.id, Byte.of_to_N.
Qed.

(** Bytes that decode as UTF-8 are what the text they decode to is
    written as. *)
Lemma utf8_encode_decode (raw : bytes) (t : text) :
  Utf8.decode raw = Some t -> Utf8.encode t = raw.
Proof.
  unfold decode, encode. intros Hdec.
  rewrite (decode_vals_encode (length (Sha256.byte_val <$> raw))
             (Sha256.byte_val <$> raw) t (le_n _)) by done.
  rewrite <-list_fmap_compose. rewrite <-(list_fmap_id raw) at 2.
  apply list_fmap_ext. intros ? b _. apply byte_of_Z_val.
Qed.
End Utf8RoundTrip.

(* ===================================================================== *)
(** ** The form of a digest *)

Lemma hex_char_lower d : (0 <= d < 16)%Z -> is_lower_hex (Sha256.hex_char d) = true.
Proof.
  intros Hd.
  assert (H : (d = 0 \/ d = 1 \/ d = 2 \/ d = 3 \/ d = 4 \/ d = 5 \/ d = 6 \/ d = 7 \/
               d = 8 \/ d = 9 \/ d = 10 \/ d = 11 \/ d = 12 \/ d = 13 \/ d = 14 \/
               d = 15)%Z) by lia.
  repeat (destruct H as [->|H]; [reflexivity|]). by subst.
Qed.

Lemma hex_digits_length n : forall x acc,
  String.length (Sha256.hex_digits n x acc) = (n + String.length acc)%nat.
Proof.
  induction n as [|n IH]; intros x acc; simpl; [done|].
  rewrite IH. simpl. lia.
Qed.

Lemma hex_digits_lower n : forall x acc,
  forallb is_lower_hex (list_ascii_of_string acc) = true ->
  forallb is_lower_hex (list_ascii_of_string (Sha256.hex_digits n x acc)) = true.
Proof.
  induction n as [|n IH]; intros x acc Hacc; simpl; [done|].
  apply IH. cbn [list_ascii_of_string forallb]. rewrite Hacc, andb_true_r.
  apply hex_char_lower. apply Z.mod_pos_bound. lia.
Qed.

Lemma hexdigest_canonical msg : canonical_digest (Sha256.hexdigest msg) = true.
Proof.
  unfold canonical_digest, Sha256.hexdigest. apply andb_true_iff. split.
  - apply Nat.eqb_eq. exact (hex_digits_length 64 (Sha256.sha256 msg) "").
  - exact (hex_digits_lower 64 (Sha256.sha256 msg) "" eq_refl).
Qed.

Lemma noncanonical_is_changed local sha :
  canonical_digest sha = false -> is_changed local sha = true.
Proof.
  intros Hsha. unfold is_changed. apply negb_true_iff.
  destruct (String.eqb_spec (Sha256.hexdigest local) sha) as [E|]; [|done].
  by rewrite <-E, hexdigest_canonical in Hsha.
Qed.

(** X3.  A remote digest that is not in the printed form (uppercase letters, a
    prefix, surrounding blanks, another algorithm) never matches: the
    artifact is reported changed against any local content, a call of
    [process_file] that returns has rewritten the file and returns [True]. *)
Theorem noncanonical_digest_always_rewrites (file : file_detail) (sf : path) (w : world) :
  canonical_digest (file_sha file) = false ->
  (forall local, is_changed local (file_sha file) = true) /\
  (forall w' changed, process_file file sf w = (w', inr changed) ->
     changed = true /\
     exists p source, locate (fs w) sf (file_name file) = Some p /\
       fs w' = <[p := File (Utf8.encode source)]> (fs w)).
Proof.
  intros Hsha. split; [intros local; by apply noncanonical_is_changed|].
  intros w' changed Hrun. apply process_file_spec in Hrun.
  inversion Hrun as [p c evs Hloc Hp Hc Hw Hev
                    |p source evs Hnot Hdec Hloc Hw Hw' Hev|]; subst.
  - exfalso. rewrite <-Hc, hexdigest_canonical in Hsha. discriminate.
  - split; [done|]. exists p, source. split; [by apply resolve_locate|done].
Qed.

(* ===================================================================== *)
(** ** What [process_file] writes *)

Lemma decode_payload_inr s source :
  decode_payload s = inr source <->
  exists raw, Base64.b64decode s = Some raw /\ Utf8.decode raw = Some source.
Proof.
  unfold decode_payload. destruct (Base64.b64decode s) as [raw|].
  - destruct (Utf8.decode raw) as [t|] eqn:Hd.
    + split; [intros [= <-]; eauto|]. intros (raw' & [= <-] & E). congruence.
    + split; [done|]. intros (raw' & [= <-] & E). congruence.
  - split; [done|]. by intros (raw' & ? & _).
Qed.

Lemma decode_payload_bytes s source raw :
  decode_payload s = inr source -> Base64.b64decode s = Some raw ->
  Utf8.encode source = raw.
Proof.
  intros (raw' & Hb & Hd)%decode_payload_inr Hraw.
  rewrite Hraw in Hb. injection Hb as <-. by apply utf8_encode_decode.
Qed.

(** X1.  The file that [process_file] writes holds the base64-decoded payload,
    byte for byte: decoding the bytes as UTF-8 and writing the text back
    through the text-mode file object loses nothing. *)
Theorem written_file_holds_payload (file : file_detail) (sf : path) (w w' : world) :
  process_file file sf w = (w', inr true) ->
  exists p raw evs,
    locate (fs w) sf (file_name file) = Some p /\
    Base64.b64decode (effective_payload file) = Some raw /\
    fs w' = <[p := File raw]> (fs w) /\
    trace w' = trace w ++ evs /\ effects evs = [EvWrite p raw].
Proof.
  intros Hrun. apply process_file_spec in Hrun.
  inversion Hrun as [|p source evs Hnot Hdec Hloc%resolve_locate Hw Hw' Hev|]; subst.
  pose proof Hdec as (raw & Hb & Hd)%decode_payload_inr.
  rewrite (decode_payload_bytes _ _ _ Hdec Hb) in *.
  by exists p, raw, evs.
Qed.

(** X2.  Applying one artifact twice: when the remote digest is the digest of
    the decoded payload, a second call after one that returned finds the
    file current, returns [False] and touches nothing. *)
Theorem process_file_twice (file : file_detail) (sf : path) (raw : bytes)
    (w w1 : world) (changed : bool) :
  Base64.b64decode (effective_payload file) = Some raw ->
  file_sha file = Sha256.hexdigest raw ->
  process_file file sf w = (w1, inr changed) ->
  exists evs,
    process_file file sf w1 = (mkWorld (fs w1) (repo w1) (trace w1 ++ evs), inr false) /\
    effects evs = [].
Proof.
  intros Hb Hsha Hrun. apply process_file_skip.
  apply (process_file_makes_current file sf w w1 changed Hrun).
  intros source Hdec. by rewrite (decode_payload_bytes _ _ _ Hdec Hb).
Qed.

Lemma decode_payload_inl s e :
  decode_payload s = inl e ->
  (e = ValueError /\ Base64.b64decode s = None) \/
  (e = UnicodeDecodeError /\
   exists raw, Base64.b64decode s = Some raw /\ Utf8.decode raw = None).
Proof.
  unfold decode_payload. destruct (Base64.b64decode s) as [raw|]; cycle 1.
  { intros [= <-]. by left. }
  destruct (Utf8.decode raw) eqn:Hd; [done|]. intros [= <-]. right. eauto.
Qed.


(** C7.  The payload that is written is the published one ([source])
    when that is not the empty string, and the draft otherwise: the file
    that [process_file] has written holds the base64-decoded bytes of that
    one.  A payload that decodes to no bytes at all is written like any
    other: for an artifact that is marked for write, the call returns
    [True] and the target is an empty file. *)
Theorem empty_payload_is_written (file : file_detail) (sf : path) (w : world) :
  (forall w', process_file file sf w = (w', inr true) ->
     exists p raw,
       locate (fs w) sf (file_name file) = Some p /\
       fs w' = <[p := File raw]> (fs w) /\
       (file_source file <> "" -> Base64.b64decode (file_source file) = Some raw) /\
       (file_source file = "" -> Base64.b64decode (file_draft file) = Some raw)) /\
  (forall p,
     (file_source file <> "" /\ Base64.b64decode (file_source file) = Some []) \/
     (file_source file = "" /\ Base64.b64decode (file_draft file) = Some []) ->
     resolve (fs w) sf (file_name file) = inr p ->
     writable (fs w) p = true ->
     ~ up_to_date (fs w) sf (file_name file) (file_sha file) ->
     exists evs,
       process_file file sf w
         = (mkWorld (<[p := File []]> (fs w)) (repo w) (trace w ++ evs), inr true) /\
       effects evs = [EvWrite p []]).
Proof.
  assert (Heff : (file_source file <> "" -> effective_payload file = file_source file) /\
                 (file_source file = "" -> effective_payload file = file_draft file)).
  { unfold effective_payload.
    destruct (String.eqb_spec (file_source file) ""); split; congruence. }
  destruct Heff as [Hsrc Hdraft]. split.
  - intros w' Hrun. apply process_file_spec in Hrun.
    inversion Hrun as [|p source evs Hnot Hdec Hloc%resolve_locate Hw Hw' Hev|]; subst.
    pose proof Hdec as (raw & Hb & Hd)%decode_payload_inr.
    rewrite (decode_payload_bytes _ _ _ Hdec Hb) in *.
    exists p, raw. split_and!; [done|done| |].
    + intros Hne. by rewrite <-(Hsrc Hne).
    + intros He. by rewrite <-(Hdraft He).
  - intros p Hempty Hres Hw Hnot.
    assert (Hdec : decode_payload (effective_payload file) = inr []).
    { unfold decode_payload.
      destruct Hempty as [[Hne Hb]|[He Hb]];
        [rewrite (Hsrc Hne)|rewrite (Hdraft He)]; by rewrite Hb. }
    exact (process_file_writes file sf w p [] Hnot Hres Hw Hdec).
Qed.

(* ===================================================================== *)
(** ** The order of a run *)

Lemma published_app a b : published (a ++ b) = published a ++ published b.
Proof. apply omap_app. Qed.

Lemma published_effects evs : published (effects evs) = published evs.
Proof.
  induction evs as [|e evs IH]; [done|].
  destruct e; simpl; try done; by rewrite IH.
Qed.



Lemma process_file_error file sf w w' e :
  process_file file sf w = (w', inl e) ->
  e = ValueError \/ e = UnicodeDecodeError \/ e = OSError \/ e = Unmodelled.
Proof.
  intros Hrun. apply process_file_spec in Hrun.
  inversion Hrun as [| |e' evs Hnot Hw Hev Hwhy]; subst.
  unfold raised in Hwhy.
  assert (Hdec : forall d, decode_payload (effective_payload file) = inl d ->
            d = ValueError \/ d = UnicodeDecodeError \/ d = OSError \/ d = Unmodelled).
  { intros d [[-> _]|[-> _]]%decode_payload_inl; auto. }
  destruct (resolve (fs w) sf (file_name file)) as [x|p] eqn:Hres.
  - apply resolve_inl in Hres as [[-> _]|[(-> & _)|[-> _]]];
      [| |injection Hwhy as <-; auto];
      (destruct (decode_payload (effective_payload file)) as [d|source];
       injection Hwhy as <-; auto).
  - destruct (decode_payload (effective_payload file)) as [d|source];
      [injection Hwhy as <-; auto|].
    destruct (writable (fs w) p); [done|]. injection Hwhy as <-; auto.
Qed.

Section RunOrder.
Variable cfg : settings.
Variable api : remote.
Variable now : string.

(** The fetch loop: the retrievals follow the list, and stop at the first
    one that fails; nothing is published. *)
Lemma process_all_order token ids : forall cr w w' r,
  process_all cfg api token ids cr w = (w', r) ->
  exists evs, trace w' = trace w ++ evs /\
    fetched evs `prefix_of` ids /\ published evs = [] /\
    (forall pre id post err, ids = pre ++ id :: post ->
       get_file api token id = inl err -> fetched evs `prefix_of` pre ++ [id]) /\
    match r with
    | inr _ => fetched evs = ids
    | inl e => e <> GitCommandError /\ e <> AttributeError
    end.
Proof.
  induction ids as [|id0 rest IH]; intros cr w w' r.
  - intros [= <- <-]. exists []. rewrite app_nil_r. split_and!; try done.
    intros pre id post err E. by destruct pre.
  - rewrite process_all_cons.
    destruct (get_file api token id0) as [[k msg]|file] eqn:Hget.
    { intros [= <- <-]. exists [EvGetFile id0]. simpl. split_and!; try done.
      - apply prefix_cons, prefix_nil.
      - intros pre id post err E _. destruct pre as [|a pre]; simpl in E;
          injection E as E1 E2; subst; apply prefix_cons, prefix_nil. }
    destruct (process_file file (save_folder cfg) (record (EvGetFile id0) w))
      as [w1 r1] eqn:Hpf.
    pose proof Hpf as Hframe.
    apply process_file_spec, processed_frame in Hframe
      as (_ & evs1 & Htr1 & Hcase). simpl in Htr1.
    assert (fetched evs1 = [] /\ published evs1 = []) as [Hf1 Hp1].
    { rewrite <-fetched_effects, <-published_effects.
      by destruct Hcase as [(-> & _)|(p & c & -> & _)]. }
    destruct r1 as [e|changed].
    { intros [= <- <-]. exists (EvGetFile id0 :: evs1). simpl. rewrite Hf1, Hp1.
      split_and!; try done.
      - by rewrite Htr1, <-app_assoc.
      - apply prefix_cons, prefix_nil.
      - intros pre id post err E _. destruct pre as [|a pre]; simpl in E;
          injection E as E1 E2; subst; apply prefix_cons, prefix_nil.
      - destruct (process_file_error _ _ _ _ _ Hpf) as [->|[->|[->| ->]]]; done.
      - destruct (process_file_error _ _ _ _ _ Hpf) as [->|[->|[->| ->]]]; done. }
    intros Hrest. apply IH in Hrest as (evs2 & Htr2 & Hpre2 & Hp2 & Hstop2 & Hres).
    exists ((EvGetFile id0 :: evs1) ++ evs2).
    rewrite fetched_app, published_app. simpl. rewrite Hf1, Hp1, Hp2. simpl.
    split_and!; try done.
    + by rewrite Htr2, Htr1, <-!app_assoc.
    + by apply prefix_cons.
    + intros pre id post err E Hfail. destruct pre as [|a pre]; simpl in E;
        injection E as E1 E2; subst.
      * congruence.
      * simpl. apply prefix_cons. by eapply Hstop2.
    + destruct r as [e|cr']; [done|]. by rewrite Hres.
Qed.

(** The cleanup loop only removes files and index entries. *)
Lemma cleanup_order backup files_on_disk : forall cr w w' r,
  cleanup cfg files_on_disk backup cr w = (w', r) ->
  exists evs, trace w' = trace w ++ evs /\ fetched evs = [] /\ published evs = [] /\
    match r with
    | inr _ => True
    | inl e => e = OSError \/ e = GitCommandError
    end.
Proof.
  induction files_on_disk as [|f rest IH]; intros cr w w' r.
  - intros [= <- <-]. exists []. by rewrite app_nil_r.
  - rewrite cleanup_cons. case_bool_decide; [apply IH|].
    destruct (os_remove (save_folder cfg) f w) as [w1 r1] eqn:Hrm.
    apply os_remove_spec in Hrm as [(p & c & _ & _ & -> & ->)|[-> ->]]; cycle 1.
    { intros [= <- <-]. exists []. rewrite app_nil_r. auto. }
    destruct (index_remove f _) as [w2 r2] eqn:Hix.
    apply index_remove_spec in Hix as (_ & _ & _ & Hix). simpl in Hix.
    destruct Hix as [[Htr2 ->]|[Htr2 ->]].
    + intros Hrun. apply IH in Hrun as (evs & Htr & Hf & Hp & Hres).
      exists ([EvRemove p; EvIndexRemove f] ++ evs).
      rewrite fetched_app, published_app, Hf, Hp. split_and!; try done.
      by rewrite Htr, Htr2, <-!app_assoc.
    + intros [= <- <-]. exists [EvRemove p]. rewrite Htr2. auto.
Qed.

Lemma main_unfold w :
  main cfg api now w =
  match apply_phase cfg api w with
  | (w1, inr cr) =>
      if cr || dirty (save_folder cfg) w1
      then (after_push cfg api (after_commit cfg now w1),
            Some (status_after_commit cfg api))
      else (record (EvLog INFO "No changes detected.") w1, Some 0%Z)
  | (w1, inl (RequestError k msg)) =>
      (record (EvLog ERROR (handler_prefix k +:+ msg)) w1, Some 0%Z)
  | (w1, inl e) => (w1, uncaught e)
  end.
Proof.
  unfold main. rewrite try_body_unfold.
  destruct (apply_phase cfg api w) as [w1 [e|cr]]; [done|].
  rewrite commit_phase_unfold. destruct (cr || dirty (save_folder cfg) w1); [|done].
  unfold push_result, status_after_commit, push_raises.
  destruct (push_to_repo cfg); [|done]. by destruct (git_push api).
Qed.

(** The fetch and apply phase, whatever its outcome: it publishes
    nothing, leaves the last commit and the history alone, creates and
    removes no directory, and retrieves a prefix of the deployed
    artifacts. *)
Lemma apply_phase_order w w' r :
  apply_phase cfg api w = (w', r) ->
  head_tree (repo w') = head_tree (repo w) /\
  commits (repo w') = commits (repo w) /\
  (forall q, is_dir (fs w') q = is_dir (fs w) q) /\
  exists evs, trace w' = trace w ++ evs /\ published evs = [] /\
    forall token files,
      post_login api = inr token -> get_files api token = inr files ->
      let ids := entry_id <$> filter (fun f => deployed f = true) files in
      fetched evs `prefix_of` ids /\
      forall pre id post err, ids = pre ++ id :: post ->
        get_file api token id = inl err -> fetched evs `prefix_of` pre ++ [id].
Proof.
  rewrite apply_phase_unfold.
  destruct (post_login api) as [[k msg]|token] eqn:Hlogin.
  { intros [= <- <-]. split_and!; try done. exists [EvLogin]. by split_and!. }
  destruct (get_files api token) as [[k msg]|files] eqn:Hlist.
  { intros [= <- <-]. split_and!; try done. exists [EvLogin; EvListFiles].
    split_and!; [unfold record; simpl; by rewrite <-app_assoc|done|].
    intros token' files' [= <-]. congruence. }
  cbn zeta. set (ids := entry_id <$> filter (fun f => deployed f = true) files).
  set (w0 := record EvListFiles (record EvLogin w)).
  destruct (process_all cfg api token ids false w0) as [w1 r1] eqn:Hrun.
  pose proof (process_all_spec _ _ _ _ _ _ _ _ Hrun) as (Hrepo1 & Hdirs1 & _).
  apply process_all_order in Hrun as (evs1 & Htr1 & Hpre1 & Hp1 & Hstop1 & Hres1).
  assert (Hw0 : trace w0 = trace w ++ [EvLogin; EvListFiles])
    by (unfold w0, record; simpl; by rewrite <-app_assoc).
  destruct r1 as [e|cr1].
  { intros [= <- <-]. rewrite Hrepo1. split_and!; try done.
    exists ([EvLogin; EvListFiles] ++ evs1).
    rewrite published_app, fetched_app, Hp1. simpl.
    split_and!; [by rewrite Htr1, Hw0, <-app_assoc|done|].
    intros token' files' [= <-] Hl. rewrite Hlist in Hl. injection Hl as <-.
    by split. }
  intros Hcl.
  pose proof (cleanup_spec _ _ _ _ _ _ _ (listdir_files_plain _ _) Hcl)
    as (Hh2 & Hc2 & Hd2 & _).
  apply cleanup_order in Hcl as (evs2 & Htr2 & Hf2 & Hp2 & _).
  rewrite Hh2, Hc2, Hrepo1. split_and!; try done.
  { intros q. by rewrite Hd2, Hdirs1. }
  exists ([EvLogin; EvListFiles] ++ evs1 ++ evs2).
  rewrite !published_app, !fetched_app, Hp1, Hp2, Hf2, !app_nil_r. simpl.
  split_and!; [by rewrite Htr2, Htr1, Hw0, <-!app_assoc|done|].
  intros token' files' [= <-] Hl. rewrite Hlist in Hl. injection Hl as <-.
  by split.
Qed.

(** X5.  The artifacts are retrieved in the order of the listing, deployed
    ones only, each once per entry, and no artifact is retrieved after a
    retrieval that failed. *)
Theorem fetches_follow_listing (token : string) (files : list file_entry) (w : world) :
  post_login api = inr token ->
  get_files api token = inr files ->
  let ids := entry_id <$> filter (fun f => deployed f = true) files in
  exists evs, trace (main cfg api now w).1 = trace w ++ evs /\
    fetched evs `prefix_of` ids /\
    forall pre id post err, ids = pre ++ id :: post ->
      get_file api token id = inl err -> fetched evs `prefix_of` pre ++ [id].
Proof.
  intros Hlogin Hlist ids.
  destruct (apply_phase cfg api w) as [w1 r1] eqn:Hap.
  destruct (main_spec cfg api now _ _ _ Hap) as (_ & evs2 & Htr2 & _ & _ & Hf2 & _).
  apply apply_phase_order in Hap as (_ & _ & _ & evs1 & Htr1 & _ & Hfetch).
  destruct (Hfetch token files Hlogin Hlist) as [Hpre Hstop].
  exists (evs1 ++ evs2). rewrite fetched_app, Hf2, app_nil_r.
  split; [by rewrite Htr2, Htr1, <-app_assoc|]. by split.
Qed.

(** X6.  A run publishes at most once: either nothing, or one commit,
    followed by one push when pushing is configured and the push goes
    through.  No push is made without a commit of the same run before
    it. *)
Theorem publish_follows_commit (w : world) :
  exists evs, trace (main cfg api now w).1 = trace w ++ evs /\
    (published evs = [] \/
     published evs
       = EvCommit (commit_message now)
           :: (if push_to_repo cfg
               then match git_push api with PushReturns => [EvPush] | _ => [] end
               else [])).
Proof.
  rewrite main_unfold.
  destruct (apply_phase cfg api w) as [w1 r1] eqn:Hap.
  apply apply_phase_order in Hap as (_ & _ & _ & evs1 & Htr1 & Hp1 & _).
  destruct r1 as [e|cr].
  - destruct e as [k msg| | | | | |]; simpl;
      [exists (evs1 ++ [EvLog ERROR (handler_prefix k +:+ msg)])
      |exists evs1..];
      rewrite ?published_app, Hp1; split; try (by left); try done.
    by rewrite Htr1, <-app_assoc.
  - destruct (cr || dirty (save_folder cfg) w1); simpl.
    + eexists. split; [rewrite Htr1, <-!app_assoc; reflexivity|].
      right. rewrite !published_app, Hp1.
      destruct (push_to_repo cfg); [|done]. by destruct (git_push api).
    + exists (evs1 ++ [EvLog INFO "No changes detected."]).
      rewrite published_app, Hp1. split; [by rewrite Htr1, <-app_assoc|by left].
Qed.

(** X7.  A run creates no directory and removes none.  This is said of the
    runs that end with an exit status and of the paths outside the git
    directory, whose content the file system map leaves out. *)
Theorem directories_are_kept (w : world) (status : Z) (q : path) :
  (main cfg api now w).2 = Some status ->
  inside (git_dir (save_folder cfg)) q = false ->
  is_dir (fs (main cfg api now w).1) q = is_dir (fs w) q.
Proof.
  intros _ _. rewrite main_unfold.
  destruct (apply_phase cfg api w) as [w1 r1] eqn:Hap.
  apply apply_phase_order in Hap as (_ & _ & Hd & _).
  destruct r1 as [e|cr]; [by destruct e|].
  by destruct (cr || dirty (save_folder cfg) w1).
Qed.





End RunOrder.

(* ===================================================================== *)
(** ** Stray files in the mirror *)




Section Strays.
Variable cfg : settings.
Variable api : remote.
Variable now : string.








End Strays.

(* ===================================================================== *)
(** ** What a run writes *)

Section Writes.
Variable cfg : settings.
Variable api : remote.
Variable now : string.

(** The fetch loop over artifacts with distinct plain names: each of them
    is written if and only if the file of its name did not have the
    remote digest when the loop began, and the file of one that is
    written holds its payload when the loop ends. *)
Lemma process_all_writes token fl : forall cr w w' r,
  process_all cfg api token (entry_id <$> fl) cr w = (w', r) ->
  NoDup (entry_name <$> fl) ->
  Forall (named api token) fl ->
  exists evs, trace w' = trace w ++ evs /\
    (forall p, p ∈ written evs ->
       exists f, f ∈ fl /\ p = save_folder cfg ++ [entry_name f]) /\
    forall f file, f ∈ fl -> get_file api token (entry_id f) = inr file ->
      let p := save_folder cfg ++ [entry_name f] in
      (p ∈ written evs ->
         ~ has_digest (fs w) p (file_sha file) /\
         exists source, decode_payload (effective_payload file) = inr source /\
                        fs w' !! p = Some (File (Utf8.encode source))) /\
      (p ∉ written evs -> fs w' !! p = fs w !! p) /\
      (forall cr', r = inr cr' -> ~ has_digest (fs w) p (file_sha file) ->
                   p ∈ written evs).
Proof.
  induction fl as [|f0 rest IH]; intros cr w w' r Hrun Hnd Hnamed.
  { injection Hrun as <- <-. exists []. rewrite app_nil_r. split_and!; try done.
    - intros p Hp. by apply elem_of_nil in Hp.
    - intros f file Hf. by apply elem_of_nil in Hf. }
  rewrite fmap_cons in Hrun. rewrite fmap_cons in Hnd.
  rewrite process_all_cons in Hrun.
  apply NoDup_cons in Hnd as [Hfresh Hnd].
  apply Forall_cons in Hnamed as [Hn0 Hnamed].
  set (p0 := save_folder cfg ++ [entry_name f0]).
  assert (Hp0 : forall g, g ∈ rest -> save_folder cfg ++ [entry_name g] <> p0).
  { intros g Hg E. apply app_inv_head in E. injection E as E.
    apply Hfresh. rewrite <-E. by apply list_elem_of_fmap_2. }
  destruct (get_file api token (entry_id f0)) as [[k msg]|file0] eqn:Hget0.
  { injection Hrun as <- <-. exists [EvGetFile (entry_id f0)]. simpl.
    split_and!; try done.
    - intros p Hp. by apply elem_of_nil in Hp.
    - intros f file Hf Hget. split_and!; try done. intros Hp. by apply elem_of_nil in Hp. }
  destruct (Hn0 file0 Hget0) as [Hname0 Hplain0].
  destruct (process_file file0 (save_folder cfg) (record (EvGetFile (entry_id f0)) w))
    as [w1 r1] eqn:Hpf.
  apply process_file_spec in Hpf.
  assert (Hrest : forall evs1 cr1,
            trace w1 = trace w ++ EvGetFile (entry_id f0) :: evs1 ->
            r1 = inr cr1 ->
            exists evs2, trace w' = trace w1 ++ evs2 /\
              (forall p, p ∈ written evs2 ->
                 exists f, f ∈ rest /\ p = save_folder cfg ++ [entry_name f]) /\
              (p0 ∉ written evs2) /\ fs w' !! p0 = fs w1 !! p0 /\
              forall f file, f ∈ rest -> get_file api token (entry_id f) = inr file ->
                let p := save_folder cfg ++ [entry_name f] in
                (p ∈ written evs2 ->
                   ~ has_digest (fs w1) p (file_sha file) /\
                   exists source, decode_payload (effective_payload file) = inr source /\
                                  fs w' !! p = Some (File (Utf8.encode source))) /\
                (p ∉ written evs2 -> fs w' !! p = fs w1 !! p) /\
                (forall cr', r = inr cr' -> ~ has_digest (fs w1) p (file_sha file) ->
                             p ∈ written evs2)).
  { intros evs1 cr1 Htr1 ->.
    pose proof (process_all_spec _ _ _ _ _ _ _ _ Hrun) as (_ & _ & _ & evs2' & Htr2' & _ & Hout & _).
    apply IH in Hrun as (evs2 & Htr2 & Hwr2 & Hall); [|done..].
    assert (evs2' = evs2) as -> by (apply (app_inv_head (trace w1)); congruence).
    assert (Hnot : p0 ∉ written evs2).
    { intros (g & Hg & E)%Hwr2. by apply (Hp0 g Hg). }
    exists evs2. split_and!; try done. by apply Hout. }
  inversion Hpf as [p c evs1 Hres Hc Hsha Hw1 Hev1
                   |p source evs1 Hnot Hdec Hres Hwr Hw1 Hev1
                   |e evs1 Hnot Hw1 Hev1 Hwhy]; subst r1;
    rewrite ?Hname0 in *; simpl in *.
  - (* the artifact is current *)
    apply (resolve_plain_inr _ _ _ _ Hplain0) in Hres as (-> & _). fold p0 in Hc.
    assert (Hwn1 : written evs1 = []) by (by rewrite <-written_effects, Hev1).
    destruct (Hrest evs1 false) as (evs2 & Htr2 & Hwr2 & Hnot0 & Hsame0 & Hall);
      [by rewrite Hw1; simpl; rewrite <-app_assoc|done|].
    assert (Hfs1 : fs w1 = fs w) by (by rewrite Hw1).
    exists (EvGetFile (entry_id f0) :: evs1 ++ evs2). simpl.
    rewrite written_app, Hwn1. simpl.
    split; [rewrite Htr2, Hw1; simpl; by rewrite <-!app_assoc|].
    split; [intros q (g & Hg & ->)%Hwr2; exists g; split;
            [by apply list_elem_of_further|done]|].
    intros f file [->|Hf]%elem_of_cons Hget.
    + rewrite Hget0 in Hget. injection Hget as <-. fold p0. split_and!; try done.
      * by rewrite Hsame0, Hfs1.
      * intros cr' _ Hno. exfalso. apply Hno. by exists c.
    + destruct (Hall f file Hf Hget) as (H1 & H2 & H3). rewrite Hfs1 in H1, H2, H3.
      by split_and!.
  - (* the artifact is written *)
    apply (resolve_plain_inr _ _ _ _ Hplain0) in Hres as (-> & Hd & Haddr).
    fold p0 in Hwr, Hw1, Hev1.
    assert (Hwn1 : written evs1 = [p0]) by (by rewrite <-written_effects, Hev1).
    destruct (Hrest evs1 true) as (evs2 & Htr2 & Hwr2 & Hnot0 & Hsame0 & Hall);
      [by rewrite Hw1; simpl; rewrite <-app_assoc|done|].
    assert (Hfs1 : forall q, q <> p0 -> fs w1 !! q = fs w !! q).
    { intros q Hq. rewrite Hw1. simpl. by apply lookup_insert_ne. }
    assert (Hdig : forall q sha, q <> p0 ->
              has_digest (fs w1) q sha <-> has_digest (fs w) q sha).
    { intros q sha Hq. unfold has_digest. by rewrite (Hfs1 q Hq). }
    exists (EvGetFile (entry_id f0) :: evs1 ++ evs2). simpl.
    rewrite written_app, Hwn1. simpl.
    split; [rewrite Htr2, Hw1; simpl; by rewrite <-!app_assoc|].
    split.
    { intros q [->|(g & Hg & ->)%Hwr2]%elem_of_cons.
      - exists f0. split; [apply list_elem_of_here|done].
      - exists g. split; [by apply list_elem_of_further|done]. }
    intros f file [->|Hf]%elem_of_cons Hget.
    + rewrite Hget0 in Hget. injection Hget as <-. fold p0. split_and!.
      * intros _. split.
        -- intros [c [Hc Hsha]]. apply Hnot. exists p0, c. split_and!; try done.
           by rewrite (resolve_plain _ _ _ Hplain0 Haddr), Hd.
        -- exists source. split; [done|]. rewrite Hsame0, Hw1. simpl.
           apply lookup_insert_eq.
      * intros Hno. exfalso. apply Hno, list_elem_of_here.
      * intros. apply list_elem_of_here.
    + destruct (Hall f file Hf Hget) as (H1 & H2 & H3).
      pose proof (Hp0 f Hf) as Hne. cbn zeta.
      rewrite elem_of_cons. rewrite <-(Hdig _ (file_sha file) Hne).
      rewrite <-(Hfs1 _ Hne). split_and!.
      * intros [?|Hin]; [done|]. by apply H1.
      * intros Hno. apply H2. intros Hin. apply Hno. by right.
      * intros cr' Hr Hno. apply elem_of_cons. right.
        eapply H3; [done|]. by rewrite Hdig.
  - (* the call raises *)
    injection Hrun as <- <-.
    assert (Hwn1 : written evs1 = []) by (by rewrite <-written_effects, Hev1).
    exists (EvGetFile (entry_id f0) :: evs1). simpl. rewrite Hwn1, Hw1. simpl.
    split; [by rewrite <-app_assoc|].
    split; [intros q Hq; by apply elem_of_nil in Hq|].
    intros f file Hf Hget. split_and!; try done.
    intros Hq. by apply elem_of_nil in Hq.
Qed.

(** C1 (as amended).  In a run whose deployed artifacts have distinct plain
    names, carried by their retrieved descriptions: an artifact's file
    is written only if the file of its name did not have the remote
    digest when the run began, and then holds the decoded payload when
    the run ends; the file of an artifact that had the remote digest is
    neither written nor removed and is the same when the run ends; and
    when the fetch and apply phase completes, every artifact whose file
    did not have the remote digest is written. *)
Theorem run_writes_iff_stale (token : string) (files : list file_entry) (w : world) :
  post_login api = inr token ->
  get_files api token = inr files ->
  let backed := filter (fun f => deployed f = true) files in
  NoDup (entry_name <$> backed) ->
  Forall (named api token) backed ->
  let r := main cfg api now w in
  exists evs, trace r.1 = trace w ++ evs /\
    forall f file, f ∈ backed -> get_file api token (entry_id f) = inr file ->
      let p := save_folder cfg ++ [entry_name f] in
      (p ∈ written evs ->
         ~ has_digest (fs w) p (file_sha file) /\
         exists source, decode_payload (effective_payload file) = inr source /\
                        fs r.1 !! p = Some (File (Utf8.encode source))) /\
      (has_digest (fs w) p (file_sha file) ->
         (p ∉ written evs) /\ (p ∉ removed evs) /\ fs r.1 !! p = fs w !! p) /\
      (forall w1 cr, apply_phase cfg api w = (w1, inr cr) ->
         ~ has_digest (fs w) p (file_sha file) -> p ∈ written evs).
Proof.
  intros Hlogin Hlist backed Hnd Hnamed r.
  destruct (apply_phase cfg api w) as [w1 r1] eqn:Hap.
  pose proof (main_spec cfg api now _ _ _ Hap) as (Hfs & evsM & HtrM & HwM & HrM & _).
  cbn zeta in Hfs, HtrM. fold r in Hfs, HtrM.
  rewrite apply_phase_unfold, Hlogin, Hlist in Hap. cbn zeta in Hap. fold backed in Hap.
  set (w0 := record EvListFiles (record EvLogin w)) in Hap.
  destruct (process_all cfg api token (entry_id <$> backed) false w0)
    as [wa ra] eqn:Hpa.
  pose proof (process_all_spec _ _ _ _ _ _ _ _ Hpa)
    as (_ & _ & _ & evsA' & HtrA' & HevA & _).
  destruct (process_all_writes _ _ _ _ _ _ Hpa Hnd Hnamed) as (evsA & HtrA & _ & Hall).
  assert (evsA' = evsA) as -> by (apply (app_inv_head (trace w0)); congruence).
  pose proof (from_deployed_quiet cfg api _ _ _ _ HevA) as [HrmA _].
  rewrite removed_effects in HrmA. simpl in Hall.
  destruct ra as [e|cr].
  - injection Hap as <- <-.
    exists ([EvLogin; EvListFiles] ++ evsA ++ evsM).
    split; [by rewrite HtrM, HtrA; unfold w0, record; simpl; rewrite <-!app_assoc|].
    intros f file Hf Hget. destruct (Hall f file Hf Hget) as (H1 & H2 & H3).
    cbn zeta. rewrite !written_app, !removed_app, HwM, HrM, HrmA, !app_nil_r. simpl.
    rewrite Hfs. split_and!; [done| |done].
    intros Hsame. assert (Hno : save_folder cfg ++ [entry_name f] ∉ written evsA).
    { intros Hin. by apply H1 in Hin as [? _]. }
    split_and!; [done|by intros ?%elem_of_nil|by apply H2].
  - apply cleanup_spec in Hap
      as (_ & _ & _ & evsC & HtrC & HwC & _ & _ & HrmC & _ & HkeepC & _);
      [|apply listdir_files_plain].
    exists ([EvLogin; EvListFiles] ++ evsA ++ evsC ++ evsM).
    split; [by rewrite HtrM, HtrC, HtrA; unfold w0, record; simpl; rewrite <-!app_assoc|].
    intros f file Hf Hget. destruct (Hall f file Hf Hget) as (H1 & H2 & H3).
    cbn zeta. rewrite !written_app, !removed_app, HwM, HrM, HrmA, HwC, !app_nil_r. simpl.
    rewrite Hfs.
    assert (Hkept : save_folder cfg ++ [entry_name f] ∉ removed evsC).
    { intros Hin. apply (proj1 (Forall_forall _ _) HrmC) in Hin as (n & _ & Hn & E).
      apply app_inv_head in E. injection E as E. apply Hn. rewrite <-E.
      by apply list_elem_of_fmap_2. }
    rewrite (HkeepC _ Hkept). split_and!; [done| |by eauto].
    intros Hsame. assert (Hno : save_folder cfg ++ [entry_name f] ∉ written evsA).
    { intros Hin. by apply H1 in Hin as [? _]. }
    split_and!; [done..|by apply H2].
Qed.

End Writes.

(* ===================================================================== *)
(** ** Opening the repository *)

Lemma gitkeep_plain : plain ".gitkeep".
Proof. by vm_compute. Qed.

Lemma git_plain : plain ".git".
Proof. by vm_compute. Qed.

Lemma os_path_isdir_in_git sf w :
  os_path_isdir_in sf ".git" w = (w, inr (has_repository (fs w) sf)).
Proof.
  unfold os_path_isdir_in, has_repository.
  rewrite (locate_plain _ _ _ git_plain). by destruct (is_dir (fs w) sf).
Qed.

Lemma is_dir_insert_dir fs p q :
  is_dir (<[p := Dir]> fs) q = bool_decide (p = q) || is_dir fs q.
Proof.
  unfold is_dir. case_bool_decide as E; [subst; by rewrite lookup_insert_eq|].
  by rewrite lookup_insert_ne.
Qed.

Lemma insert_dir_spec (fs : gmap path node) cur :
  (forall c, fs !! cur <> Some (File c)) ->
  is_dir (<[cur := Dir]> fs) cur = true /\
  (forall q, is_dir fs q = true -> is_dir (<[cur := Dir]> fs) q = true) /\
  (forall q c, <[cur := Dir]> fs !! q = Some (File c) <-> fs !! q = Some (File c)) /\
  (forall q, q <> cur -> <[cur := Dir]> fs !! q = fs !! q).
Proof.
  intros Hnf. split_and!.
  - by rewrite is_dir_insert_dir, bool_decide_eq_true_2.
  - intros q Hq. rewrite is_dir_insert_dir, Hq. apply orb_true_r.
  - intros q c. destruct (decide (cur = q)) as [<-|Hne].
    + rewrite lookup_insert_eq. split; [done|]. intros E. by apply Hnf in E.
    + by rewrite lookup_insert_ne.
  - intros q Hq. by rewrite lookup_insert_ne.
Qed.

(** What making directories changes: the last path is a directory,
    directories and files stay, no file appears, and nothing changes off
    the way to the last path. *)
Lemma make_dirs_spec rest : forall fs cur fs1,
  make_dirs fs cur rest = Some fs1 ->
  is_dir fs1 (cur ++ rest) = true /\
  (forall q, is_dir fs q = true -> is_dir fs1 q = true) /\
  (forall q c, fs1 !! q = Some (File c) <-> fs !! q = Some (File c)) /\
  (forall q, ~ q `prefix_of` cur ++ rest -> fs1 !! q = fs !! q).
Proof.
  induction rest as [|c rest IH]; intros fs cur fs1 Hrun; simpl in Hrun.
  - assert (Hnf : forall c, fs !! cur <> Some (File c))
      by (intros c E; by rewrite E in Hrun).
    assert (fs1 = <[cur := Dir]> fs) as ->
      by (destruct (fs !! cur) as [[|c0]|]; congruence).
    destruct (insert_dir_spec fs cur Hnf) as (H1 & H2 & H3 & H4).
    rewrite app_nil_r. split_and!; try done.
    intros q Hq. apply H4. by intros ->.
  - assert (Hnf : forall c, fs !! cur <> Some (File c))
      by (intros c0 E; by rewrite E in Hrun).
    assert (Hrun' : make_dirs (<[cur := Dir]> fs) (cur ++ [c]) rest = Some fs1)
      by (destruct (fs !! cur) as [[|c0]|]; congruence).
    destruct (insert_dir_spec fs cur Hnf) as (H1 & H2 & H3 & H4).
    apply IH in Hrun' as (Hlast & Hdirs & Hfiles & Hoff).
    rewrite <-app_assoc in Hlast, Hoff. simpl in Hlast, Hoff.
    split_and!; try done.
    + intros q Hq. by apply Hdirs, H2.
    + intros q c0. by rewrite Hfiles, H3.
    + intros q Hq. rewrite Hoff by done. apply H4. intros ->. apply Hq.
      by apply prefix_app_r.
Qed.

Lemma make_dirs_total rest : forall (fs : gmap path node) cur,
  (forall q c, cur `prefix_of` q -> q `prefix_of` cur ++ rest ->
               fs !! q <> Some (File c)) ->
  is_Some (make_dirs fs cur rest).
Proof.
  induction rest as [|c rest IH]; intros fs cur Hfree; simpl.
  - destruct (fs !! cur) as [[|c0]|] eqn:Hcur; eauto.
    exfalso. eapply (Hfree cur c0); [done|by rewrite app_nil_r|done].
  - assert (Hnf : forall c0, fs !! cur <> Some (File c0)).
    { intros c0. apply Hfree; [done|by apply prefix_app_r]. }
    assert (Hnext : is_Some (make_dirs (<[cur := Dir]> fs) (cur ++ [c]) rest)).
    { apply IH. intros q c0 Hpre Hq. rewrite lookup_insert_ne.
      - apply Hfree; [|by rewrite <-app_assoc in Hq].
        etrans; [|exact Hpre]. by apply prefix_app_r.
      - intros ->. destruct Hpre as [k Hk]. apply (f_equal length) in Hk.
        rewrite !length_app in Hk. simpl in Hk. lia. }
    destruct (fs !! cur) as [[|c0]|] eqn:Hcur; [done| |done].
    by destruct (Hnf c0).
Qed.

Lemma child_not_on_the_way (sf : path) (n : string) : ~ (sf ++ [n]) `prefix_of` sf.
Proof.
  intros [k Hk]. apply (f_equal length) in Hk.
  rewrite !length_app in Hk. simpl in Hk. lia.
Qed.

Lemma repo_init_trace sf w w1 r : repo_init sf w = (w1, r) -> trace w1 = trace w.
Proof.
  unfold repo_init, git_init.
  destruct (fs w !! sf) as [[|c]|].
  - destruct (fs w !! (sf ++ [".git"])) as [[|c]|]; by intros [= <- <-].
  - by intros [= <- <-].
  - destruct (make_dirs (fs w) [] sf) as [fs1|]; [|by intros [= <- <-]]. simpl.
    destruct (fs1 !! (sf ++ [".git"])) as [[|c]|]; by intros [= <- <-].
Qed.

Lemma repo_init_error sf w w1 e :
  repo_init sf w = (w1, inl e) -> e = OSError \/ e = GitCommandError.
Proof.
  unfold repo_init, git_init.
  destruct (fs w !! sf) as [[|c]|].
  - destruct (fs w !! (sf ++ [".git"])) as [[|c]|]; intros H; try done.
    injection H as _ <-. auto.
  - intros [= _ <-]. auto.
  - destruct (make_dirs (fs w) [] sf) as [fs1|]; [|intros [= _ <-]; auto]. simpl.
    destruct (fs1 !! (sf ++ [".git"])) as [[|c]|]; intros H; try done.
    injection H as _ <-. auto.
Qed.

(** A call of [repo_init] that returns: the folder and its [.git] are
    directories, the files are those that were there, and nothing changes
    off the way to the folder but [.git]; the repository is empty unless
    [.git] was a directory already. *)
Lemma repo_init_spec sf w w1 :
  repo_init sf w = (w1, inr tt) ->
  has_repository (fs w1) sf = true /\
  (forall q, is_dir (fs w) q = true -> is_dir (fs w1) q = true) /\
  (forall q c, fs w1 !! q = Some (File c) <-> fs w !! q = Some (File c)) /\
  (forall q, ~ q `prefix_of` sf -> q <> sf ++ [".git"] -> fs w1 !! q = fs w !! q) /\
  (is_dir (fs w) (sf ++ [".git"]) = false -> repo w1 = mkRepo ∅ ∅ []).
Proof.
  unfold repo_init.
  assert (Hgit : forall fs0 : gmap path node, is_dir fs0 sf = true ->
            (forall q, is_dir (fs w) q = true -> is_dir fs0 q = true) ->
            (forall q c, fs0 !! q = Some (File c) <-> fs w !! q = Some (File c)) ->
            (forall q, ~ q `prefix_of` sf -> fs0 !! q = fs w !! q) ->
            git_init sf (mkWorld fs0 (repo w) (trace w)) = (w1, inr tt) ->
            has_repository (fs w1) sf = true /\
            (forall q, is_dir (fs w) q = true -> is_dir (fs w1) q = true) /\
            (forall q c, fs w1 !! q = Some (File c) <-> fs w !! q = Some (File c)) /\
            (forall q, ~ q `prefix_of` sf -> q <> sf ++ [".git"] ->
                       fs w1 !! q = fs w !! q) /\
            (is_dir (fs w) (sf ++ [".git"]) = false -> repo w1 = mkRepo ∅ ∅ [])).
  { intros fs0 Hsf Hdirs Hfiles Hoff. unfold git_init. simpl.
    pose proof (Hoff _ (child_not_on_the_way sf ".git")) as Hsame.
    destruct (fs0 !! (sf ++ [".git"])) as [[|c]|] eqn:Hg; [|done|].
    { intros [= <-]. simpl. split_and!; try done.
      - unfold has_repository. rewrite Hsf. unfold is_dir. by rewrite Hg.
      - intros q Hq _. by apply Hoff.
      - intros Hng. unfold is_dir in Hng. by rewrite <-Hsame in Hng. }
    intros [= <-]. simpl.
    split_and!; try done.
    - apply andb_true_iff. split; rewrite is_dir_insert_dir.
      + rewrite Hsf. apply orb_true_r.
      + by rewrite bool_decide_eq_true_2.
    - intros q Hq. rewrite is_dir_insert_dir, (Hdirs q Hq). apply orb_true_r.
    - intros q c. rewrite <-Hfiles. destruct (decide (sf ++ [".git"] = q)) as [<-|Hne].
      + rewrite lookup_insert_eq, Hg. by split.
      + by rewrite lookup_insert_ne.
    - intros q Hq Hne. rewrite lookup_insert_ne by done. by apply Hoff. }
  destruct (fs w !! sf) as [[|c]|] eqn:Hsf; [|done|].
  - destruct w as [fs0 rp tr]. simpl in *. apply Hgit; try done.
    unfold is_dir. by rewrite Hsf.
  - destruct (make_dirs (fs w) [] sf) as [fs1|] eqn:Hmk; [|done].
    apply make_dirs_spec in Hmk as (Hlast & Hdirs & Hfiles & Hoff). simpl in Hlast, Hoff.
    by apply Hgit.
Qed.

(** [repo_init] returns when no regular file is in the way. *)
Lemma repo_init_returns sf w :
  is_dir (fs w) sf = true \/
    (forall q c, q `prefix_of` sf -> fs w !! q <> Some (File c)) ->
  fs w !! (sf ++ [".git"]) = None ->
  exists wa, repo_init sf w = (wa, inr tt).
Proof.
  intros Hsf Hgit. unfold repo_init.
  destruct (fs w !! sf) as [[|c]|] eqn:E.
  - unfold git_init. rewrite Hgit. eauto.
  - exfalso. destruct Hsf as [Hd|Hfree]; [unfold is_dir in Hd; by rewrite E in Hd|].
    by eapply (Hfree sf c).
  - destruct Hsf as [Hd|Hfree]; [unfold is_dir in Hd; by rewrite E in Hd|].
    destruct (make_dirs_total sf (fs w) []) as [fs1 Hmk].
    { intros q c _ Hq. by apply Hfree. }
    rewrite Hmk. apply make_dirs_spec in Hmk as (_ & _ & _ & Hoff). simpl in Hoff.
    unfold git_init. simpl. rewrite (Hoff _ (child_not_on_the_way sf ".git")), Hgit.
    eauto.
Qed.

Lemma encode_nil : Utf8.encode [] = [].
Proof. reflexivity. Qed.

Lemma has_repository_mono (fs fs1 : gmap path node) sf :
  (forall q, is_dir fs q = true -> is_dir fs1 q = true) ->
  has_repository fs sf = true -> has_repository fs1 sf = true.
Proof.
  unfold has_repository. intros Hd [H1 H2]%andb_true_iff.
  by rewrite (Hd _ H1), (Hd _ H2).
Qed.

(** The branch of [initialize_git_repo] that creates the repository. *)
Lemma create_branch_spec sf url push ok w w1 r :
  (repo_init sf ;;
   write_text sf ".gitkeep" [] ;;
   index_add sf ".gitkeep" ;;
   index_commit "Initial commit" ;;
   if push && truthy url then link_origin ok else ret tt) w = (w1, r) ->
  exists evs, trace w1 = trace w ++ evs /\
    evs `prefix_of` [EvWrite (sf ++ [".gitkeep"]) []; EvCommit "Initial commit"] /\
    match r with
    | inr _ =>
        evs = [EvWrite (sf ++ [".gitkeep"]) []; EvCommit "Initial commit"] /\
        has_repository (fs w1) sf = true /\
        fs w1 !! (sf ++ [".gitkeep"]) = Some (File []) /\
        (forall q, is_dir (fs w) q = true -> is_dir (fs w1) q = true) /\
        (forall q c, q <> sf ++ [".gitkeep"] ->
           fs w1 !! q = Some (File c) <-> fs w !! q = Some (File c)) /\
        (push && truthy url = true -> ok = true) /\
        (is_dir (fs w) (sf ++ [".git"]) = false -> repo w1 = fresh_repo)
    | inl e => e = OSError \/ e = GitCommandError
    end.
Proof.
  unfold bind at 1.
  destruct (repo_init sf w) as [wa ra] eqn:Hinit.
  pose proof (repo_init_trace _ _ _ _ Hinit) as Htr.
  destruct ra as [e|[]].
  { intros [= <- <-]. exists []. rewrite app_nil_r.
    split_and!; [done|apply prefix_nil|by eapply repo_init_error]. }
  apply repo_init_spec in Hinit as (Hrepo & Hdirs & Hfiles & _ & Hfresh).
  pose proof Hrepo as [Hsf _]%andb_true_iff.
  unfold bind at 1. unfold write_text.
  rewrite (resolve_plain _ _ _ gitkeep_plain eq_refl), Hsf, encode_nil.
  set (p := sf ++ [".gitkeep"]) in *.
  destruct (writable (fs wa) p) eqn:Hw; cycle 1.
  { intros [= <- <-]. exists []. rewrite app_nil_r.
    split_and!; [done|apply prefix_nil|by left]. }
  assert (Hnd : is_dir (fs wa) p = false).
  { unfold writable in Hw. apply andb_true_iff in Hw as [Hw _].
    apply andb_true_iff in Hw as [_ Hw]. by apply negb_true_iff in Hw. }
  unfold bind at 1. unfold index_add. cbn [fs repo trace]. fold p.
  rewrite lookup_insert_eq.
  unfold bind at 1. unfold index_commit at 1. cbn [fs repo trace index head_tree commits].
  destruct (push && truthy url) eqn:Hpush; [destruct ok|]; cbn; intros [= <- <-];
    exists [EvWrite p []; EvCommit "Initial commit"]; cbn [fs repo trace];
    (split; [by rewrite Htr, <-app_assoc|]); (split; [done|]); try (by right).
  all: split; [done|].
  all: split; [eapply has_repository_mono; [|exact Hrepo]; intros q Hq;
               by rewrite (is_dir_insert_file _ _ _ _ Hnd)|].
  all: split; [apply lookup_insert_eq|].
  all: split; [intros q Hq; rewrite (is_dir_insert_file _ _ _ _ Hnd); by apply Hdirs|].
  all: split; [intros q c Hq; rewrite lookup_insert_ne by done; apply Hfiles|].
  all: split; [done|].
  all: intros Hng; rewrite (Hfresh Hng); cbn; unfold fresh_repo, gitkeep_tree;
    by rewrite insert_empty.
Qed.

(** The branch returns when the folder can be made a repository, the
    entry [.gitkeep] is not a directory, and the remote can be linked if
    it is to be. *)
Lemma create_branch_returns sf url push ok w :
  is_dir (fs w) sf = true \/
    (forall q c, q `prefix_of` sf -> fs w !! q <> Some (File c)) ->
  fs w !! (sf ++ [".git"]) = None ->
  is_dir (fs w) (sf ++ [".gitkeep"]) = false ->
  (push && truthy url = true -> ok = true) ->
  exists w1,
    (repo_init sf ;;
     write_text sf ".gitkeep" [] ;;
     index_add sf ".gitkeep" ;;
     index_commit "Initial commit" ;;
     if push && truthy url then link_origin ok else ret tt) w = (w1, inr tt).
Proof.
  intros Hsf Hgit Hkeep Hlink.
  destruct (repo_init_returns sf w Hsf Hgit) as [wa Hinit].
  unfold bind at 1. rewrite Hinit.
  apply repo_init_spec in Hinit as (Hrepo & _ & _ & Hoff & _).
  pose proof Hrepo as [Hsf' _]%andb_true_iff.
  unfold bind at 1. unfold write_text.
  rewrite (resolve_plain _ _ _ gitkeep_plain eq_refl), Hsf'.
  assert (Hw : writable (fs wa) (sf ++ [".gitkeep"]) = true).
  { unfold writable. rewrite removelast_last, Hsf'.
    rewrite bool_decide_eq_true_2 by (by destruct sf).
    assert (is_dir (fs wa) (sf ++ [".gitkeep"]) = false) as ->; [|done].
    unfold is_dir. rewrite Hoff; [exact Hkeep|apply child_not_on_the_way|].
    intros E. apply app_inv_head in E. discriminate E. }
  rewrite Hw. unfold bind at 1. unfold index_add. cbn [fs repo trace].
  rewrite lookup_insert_eq. unfold bind at 1. unfold index_commit at 1.
  destruct (push && truthy url); [rewrite Hlink by done|]; cbn; eauto.
Qed.

Lemma initialize_unfold sf url push ok w :
  initialize_git_repo sf url push ok w =
  if has_repository (fs w) sf
  then (if push then link_origin ok else ret tt) w
  else (repo_init sf ;;
        write_text sf ".gitkeep" [] ;;
        index_add sf ".gitkeep" ;;
        index_commit "Initial commit" ;;
        if push && truthy url then link_origin ok else ret tt) w.
Proof.
  unfold initialize_git_repo. unfold bind at 1. rewrite os_path_isdir_in_git.
  by destruct (has_repository (fs w) sf).
Qed.

(** After [initialize_git_repo] has returned, [save_folder] holds a
    repository. *)
Lemma initialize_returns_repository sf url push ok w w1 :
  initialize_git_repo sf url push ok w = (w1, inr tt) ->
  has_repository (fs w1) sf = true /\
  (has_repository (fs w) sf = true -> w1 = w) /\
  (push = true -> truthy url = true \/ has_repository (fs w) sf = true -> ok = true).
Proof.
  rewrite initialize_unfold.
  destruct (has_repository (fs w) sf) eqn:Hrep.
  - destruct push; [destruct ok|]; cbn; intros [= <-]; by split_and!.
  - intros Hrun.
    apply create_branch_spec in Hrun as (_ & _ & _ & _ & ? & _ & _ & _ & Hok & _).
    split_and!; try done. intros -> [Ht|?]; [|done]. apply Hok. by rewrite Ht.
Qed.

(** [initialize_git_repo] raises an [OSError] or a [GitCommandError]. *)
Lemma initialize_error sf url push ok w w1 e :
  initialize_git_repo sf url push ok w = (w1, inl e) -> uncaught e = Some 1%Z.
Proof.
  rewrite initialize_unfold.
  destruct (has_repository (fs w) sf).
  - destruct push; [destruct ok|]; cbn; by intros [= _ <-].
  - intros Hrun. apply create_branch_spec in Hrun as (_ & _ & _ & [-> | ->]); done.
Qed.

Section Opening.
Variable cfg : settings.
Variable api : remote.
Variable now : string.
Variable remote_repo_url : option string.
Variable origin_ok : bool.

(** X13.  In a folder without a [.git] directory, a call of
    [initialize_git_repo] that returns has made the folder a repository
    whose one commit, 'Initial commit', and whose index hold the empty
    file [.gitkeep] and nothing else: the files that were in the folder
    are left as they are, untracked.  The call returns when the folder is
    a directory, or can be created with its parents, has no entry [.git],
    [.gitkeep] is not a directory, and the remote, if it is to be linked,
    can be. *)
Theorem fresh_repository_tracks_gitkeep (sf : path) (push : bool) (w : world) :
  is_dir (fs w) (sf ++ [".git"]) = false ->
  (forall w1, initialize_git_repo sf remote_repo_url push origin_ok w = (w1, inr tt) ->
     has_repository (fs w1) sf = true /\
     repo w1 = fresh_repo /\
     fs w1 !! (sf ++ [".gitkeep"]) = Some (File []) /\
     (forall q c, q <> sf ++ [".gitkeep"] ->
        fs w1 !! q = Some (File c) <-> fs w !! q = Some (File c)) /\
     trace w1 = trace w ++ [EvWrite (sf ++ [".gitkeep"]) []; EvCommit "Initial commit"]) /\
  (is_dir (fs w) sf = true \/
     (forall q c, q `prefix_of` sf -> fs w !! q <> Some (File c)) ->
   fs w !! (sf ++ [".git"]) = None ->
   is_dir (fs w) (sf ++ [".gitkeep"]) = false ->
   (push && truthy remote_repo_url = true -> origin_ok = true) ->
   exists w1, initialize_git_repo sf remote_repo_url push origin_ok w = (w1, inr tt)).
Proof.
  intros Hnogit.
  assert (Hrep : has_repository (fs w) sf = false).
  { unfold has_repository. rewrite Hnogit. apply andb_false_r. }
  split.
  - intros w1. rewrite initialize_unfold, Hrep. intros Hrun.
    apply create_branch_spec in Hrun
      as (evs & Htr & _ & -> & ? & ? & _ & ? & _ & Hfresh).
    split_and!; try done. by apply Hfresh.
  - intros Hsf Hgit Hkeep Hlink. rewrite initialize_unfold, Hrep.
    by apply create_branch_returns.
Qed.

(** X14.  Opening is idempotent: once [initialize_git_repo] has returned, a
    second call finds the repository and changes nothing (the remote
    being reachable when pushing is on). *)
Theorem initialize_twice (sf : path) (push : bool) (w w1 : world) :
  initialize_git_repo sf remote_repo_url push origin_ok w = (w1, inr tt) ->
  (push = true -> origin_ok = true) ->
  initialize_git_repo sf remote_repo_url push origin_ok w1 = (w1, inr tt).
Proof.
  intros Hrun Hok. apply initialize_returns_repository in Hrun as (Hrep & _).
  rewrite initialize_unfold, Hrep. destruct push; [|done]. by rewrite Hok.
Qed.

Lemma startup_is_initialize (w : world) :
  startup cfg remote_repo_url origin_ok w
  = initialize_git_repo (save_folder cfg) remote_repo_url (push_to_repo cfg) origin_ok w.
Proof.
  unfold startup. unfold bind at 1.
  destruct (initialize_git_repo _ _ _ _ w) as [w1 [e|[]]] eqn:Hrun; [done|].
  apply initialize_returns_repository in Hrun as (Hrep & _).
  apply andb_true_iff in Hrep as [Hsf _].
  unfold ensure_folder, os_path_isdir, bind. by rewrite Hsf.
Qed.

Lemma program_unfold (w : world) :
  program cfg api now remote_repo_url origin_ok w
  = match initialize_git_repo (save_folder cfg) remote_repo_url (push_to_repo cfg)
            origin_ok w with
    | (w1, inr _) => main cfg api now w1
    | (w1, inl _) => (w1, Some 1%Z)
    end.
Proof.
  unfold program. rewrite startup_is_initialize.
  destruct (initialize_git_repo _ _ _ _ w) as [w1 [e|[]]] eqn:Hrun; [|done].
  by rewrite (initialize_error _ _ _ _ _ _ _ Hrun).
Qed.

(** X15.  The folder check of [main] (lines 99-105) never fires: when
    [initialize_git_repo] has returned, [save_folder] is a directory, so
    that [main] never logs that the folder does not exist, never calls
    [os.makedirs] and never initializes a second repository; a run is
    [initialize_git_repo] followed by the [try] block. *)
Theorem folder_check_never_fires (w : world) :
  (forall w1,
     initialize_git_repo (save_folder cfg) remote_repo_url (push_to_repo cfg) origin_ok w
       = (w1, inr tt) ->
     is_dir (fs w1) (save_folder cfg) = true /\
     ensure_folder (save_folder cfg) w1 = (w1, inr tt)) /\
  program cfg api now remote_repo_url origin_ok w
  = match initialize_git_repo (save_folder cfg) remote_repo_url (push_to_repo cfg)
            origin_ok w with
    | (w1, inr _) => main cfg api now w1
    | (w1, inl _) => (w1, Some 1%Z)
    end.
Proof.
  split.
  - intros w1 Hrun. apply initialize_returns_repository in Hrun as (Hrep & _).
    apply andb_true_iff in Hrep as [Hsf _]. split; [done|].
    unfold ensure_folder, os_path_isdir, bind. by rewrite Hsf.
  - apply program_unfold.
Qed.


(** X17.  A remote that cannot be reached blocks the backup: with pushing
    on, when the operations on [origin] fail, [initialize_git_repo] raises
    and the run ends with exit status 1 before the controller is
    contacted.  A repository that existed is left as it was; one that had
    to be created has at most its [.gitkeep] and its initial commit. *)
Theorem unreachable_remote_blocks_run (w : world) :
  push_to_repo cfg = true ->
  origin_ok = false ->
  has_repository (fs w) (save_folder cfg) = true \/ truthy remote_repo_url = true ->
  let r := program cfg api now remote_repo_url origin_ok w in
  r.2 = Some 1%Z /\
  (has_repository (fs w) (save_folder cfg) = true -> r.1 = w) /\
  exists evs, trace r.1 = trace w ++ evs /\
    evs `prefix_of` [EvWrite (save_folder cfg ++ [".gitkeep"]) [];
                     EvCommit "Initial commit"].
Proof.
  intros Hpush Hok Hcase r. unfold r.
  rewrite program_unfold, initialize_unfold, Hpush, Hok.
  destruct (has_repository (fs w) (save_folder cfg)) eqn:Hrep.
  - cbn. split_and!; try done. exists []. rewrite app_nil_r. split; [done|apply prefix_nil].
  - destruct Hcase as [?|Hurl]; [done|].
    destruct ((repo_init (save_folder cfg) ;; _) w) as [w1 r1] eqn:Hrun.
    apply create_branch_spec in Hrun as (evs & Htr & Hpre & Hres).
    destruct r1 as [e|[]].
    + cbn. split_and!; try done. by exists evs.
    + destruct Hres as (_ & _ & _ & _ & _ & Hlink & _).
      rewrite Hurl in Hlink. by specialize (Hlink eq_refl).
Qed.

End Opening.

(* ===================================================================== *)
(** ** Runs that complete *)


Section Completion.
Variable cfg : settings.
Variable api : remote.
Variable now : string.




End Completion.

(* ===================================================================== *)
(** ** Instances *)

Ltac run := vm_compute; reflexivity.

(** The digest of [a.vcl] in capital letters never matches. *)
Lemma noncanonical_digest_always_rewrites_witness :
  is_changed (bytes_of_string "A") (file_sha Cases.art_upper) = true.
Proof.
  apply (proj1 (noncanonical_digest_always_rewrites Cases.art_upper Scenario.root
                  Scenario.world0 ltac:(run))).
Defined.

(** [b.vcl] is written with the decoded draft. *)
Lemma written_file_holds_payload_witness :
  let w := Scenario.world0 in
  let w' := (process_file Scenario.art_b Scenario.root w).1 in
  exists p raw evs,
    locate (fs w) Scenario.root (file_name Scenario.art_b) = Some p /\
    Base64.b64decode (effective_payload Scenario.art_b) = Some raw /\
    fs w' = <[p := File raw]> (fs w) /\
    trace w' = trace w ++ evs /\ effects evs = [EvWrite p raw].
Proof.
  intros w w'.
  apply (written_file_holds_payload Scenario.art_b Scenario.root w w'). run.
Defined.

Lemma process_file_twice_witness :
  let w1 := (process_file Scenario.art_b Scenario.root Scenario.world0).1 in
  exists evs,
    process_file Scenario.art_b Scenario.root w1
      = (mkWorld (fs w1) (repo w1) (trace w1 ++ evs), inr false) /\
    effects evs = [].
Proof.
  intros w1.
  apply (process_file_twice Scenario.art_b Scenario.root (bytes_of_string "B")
           Scenario.world0 w1 true); run.
Defined.


(** The retrieval of artifact 7 fails after that of artifact 2. *)
Lemma fetches_follow_listing_witness :
  let w := Scenario.clean_world [] in
  let ids := entry_id <$> filter (fun f => deployed f = true)
                            [mkEntry 2 "b.vcl" true; mkEntry 7 "g.vcl" true] in
  exists evs,
    trace (main Scenario.cfg Scenario.api_partial Scenario.now w).1 = trace w ++ evs /\
    fetched evs `prefix_of` ids /\
    forall pre id post err, ids = pre ++ id :: post ->
      get_file Scenario.api_partial "token" id = inl err ->
      fetched evs `prefix_of` pre ++ [id].
Proof.
  intros w ids.
  apply (fetches_follow_listing Scenario.cfg Scenario.api_partial Scenario.now "token"
           [mkEntry 2 "b.vcl" true; mkEntry 7 "g.vcl" true] w eq_refl eq_refl).
Defined.



(** The mirror folder is a directory before and after the end-to-end
    scenario. *)
Lemma directories_are_kept_witness :
  is_dir (fs (main Scenario.cfg Scenario.api Scenario.now Scenario.world0).1) Scenario.root
  = is_dir (fs Scenario.world0) Scenario.root.
Proof.
  apply (directories_are_kept Scenario.cfg Scenario.api Scenario.now Scenario.world0
           0%Z Scenario.root).
  - run.
  - run.
Defined.





(** The folder [/srv/vcl] does not exist: it is created with its parent
    and the call returns. *)
Lemma fresh_repository_tracks_gitkeep_witness :
  exists w1, initialize_git_repo Scenario.root None false false Cases.world_absent
             = (w1, inr tt).
Proof.
  apply (proj2 (fresh_repository_tracks_gitkeep None false Scenario.root false
                  Cases.world_absent ltac:(run))).
  - right. intros q c _ E. cbn [fs Cases.world_absent] in E.
    apply lookup_singleton_Some in E as [_ E]. discriminate E.
  - run.
  - run.
  - discriminate.
Defined.

Lemma initialize_twice_witness :
  let w1 := (initialize_git_repo Scenario.root None false false Cases.world_bare).1 in
  initialize_git_repo Scenario.root None false false w1 = (w1, inr tt).
Proof.
  intros w1.
  apply (initialize_twice None false Scenario.root false Cases.world_bare w1).
  - run.
  - discriminate.
Defined.


(** Pushing is on and the remote cannot be reached: the run on the
    repository of [/srv/vcl] ends before it starts. *)
Lemma unreachable_remote_blocks_run_witness :
  let w := (initialize_git_repo Scenario.root None false false Cases.world_bare).1 in
  let r := program Cases.cfg_push Scenario.api Scenario.now (Some "git@host:vcl.git")
             false w in
  r.2 = Some 1%Z /\ r.1 = w.
Proof.
  intros w r.
  destruct (unreachable_remote_blocks_run Cases.cfg_push Scenario.api Scenario.now
              (Some "git@host:vcl.git") false w eq_refl eq_refl)
    as (Hexit & Hsame & _).
  - left. run.
  - split; [exact Hexit|]. apply Hsame. run.
Defined.



(** Witness for C1, on the end-to-end scenario: [a.vcl] has the remote
    digest and stays as it is, [b.vcl] has no file and is written. *)
Lemma run_writes_iff_stale_witness :
  let w := Scenario.world0 in
  let r := main Scenario.cfg Scenario.api Scenario.now w in
  fs r.1 !! (Scenario.root ++ ["a.vcl"]) = fs w !! (Scenario.root ++ ["a.vcl"]) /\
  exists evs, trace r.1 = trace w ++ evs /\ Scenario.root ++ ["b.vcl"] ∈ written evs.
Proof.
  intros w r.
  destruct (run_writes_iff_stale Scenario.cfg Scenario.api Scenario.now "token"
              [mkEntry 1 "a.vcl" true; mkEntry 2 "b.vcl" true; mkEntry 3 "old.vcl" false]
              w eq_refl eq_refl)
    as (evs & Htr & Hall).
  - apply (bool_decide_unpack (NoDup ["a.vcl"; "b.vcl"])). vm_compute. exact I.
  - repeat apply Forall_cons_2; [| |apply Forall_nil_2];
      intros file Hget; vm_compute in Hget; injection Hget as <-;
      (split; [reflexivity|by vm_compute]).
  - destruct (Hall (mkEntry 1 "a.vcl" true) Scenario.art_a) as (_ & Ha & _);
      [apply list_elem_of_here|reflexivity|].
    destruct (Hall (mkEntry 2 "b.vcl" true) Scenario.art_b) as (_ & _ & Hb);
      [apply list_elem_of_further, list_elem_of_here|reflexivity|].
    split.
    + apply Ha. exists (bytes_of_string "A"). split; run.
    + exists evs. split; [exact Htr|].
      apply (Hb (apply_phase Scenario.cfg Scenario.api w).1 true); [run|].
      intros (c & Hc & _). vm_compute in Hc. discriminate Hc.
Defined.

(** C1, as stated, fails.  The deployed artifact is named [./a.vcl]; the
    file that [os.path.join] finds for it, [a.vcl], has the remote digest
    and is not written, and the cleanup of the same run, which compares
    the listed file name [a.vcl] with the artifact name, deletes it. *)
Lemma equal_digest_file_is_deleted :
  let w := Scenario.clean_world [("a.vcl", "A")] in
  let r := main Scenario.cfg Scenario.api_dot_name Scenario.now w in
  let p := Scenario.root ++ ["a.vcl"] in
  get_file Scenario.api_dot_name "token" 1
    = inr (mkDetail 1 "./a.vcl" Scenario.sha_A "QQ==" "") /\
  resolve (fs w) Scenario.root "./a.vcl" = inr p /\
  fs w !! p = Some (File (bytes_of_string "A")) /\
  Sha256.hexdigest (bytes_of_string "A") = Scenario.sha_A /\
  r.2 = Some 0%Z /\
  written (trace r.1) = [] /\
  removed (trace r.1) = [p] /\
  fs r.1 !! p = None.
Proof. cbv zeta. split_and!; vm_compute; reflexivity. Qed.




(** Witness for C7: [b.vcl] has a draft only and is written with it; an
    artifact with empty [source] and [draft] is written as an empty
    file. *)
Lemma empty_payload_is_written_witness :
  (let w := Scenario.world0 in
   exists p raw,
     locate (fs w) Scenario.root "b.vcl" = Some p /\
     fs (process_file Scenario.art_b Scenario.root w).1 = <[p := File raw]> (fs w) /\
     Base64.b64decode (file_draft Scenario.art_b) = Some raw) /\
  (let w := Scenario.clean_world [] in
   let p := Scenario.root ++ ["empty.vcl"] in
   exists evs,
     process_file Scenario.art_empty Scenario.root w
       = (mkWorld (<[p := File []]> (fs w)) (repo w) (trace w ++ evs), inr true) /\
     effects evs = [EvWrite p []]).
Proof.
  split.
  - intros w.
    destruct (proj1 (empty_payload_is_written Scenario.art_b Scenario.root w)
                (process_file Scenario.art_b Scenario.root w).1 ltac:(run))
      as (p & raw & Hloc & Hfs & _ & Hdraft).
    exists p, raw. split_and!; [exact Hloc|exact Hfs|by apply Hdraft].
  - intros w p.
    apply (proj2 (empty_payload_is_written Scenario.art_empty Scenario.root w) p).
    + right. split; run.
    + run.
    + run.
    + intros (p' & c & Hp' & Hc & _). vm_compute in Hp'. injection Hp' as <-.
      vm_compute in Hc. discriminate Hc.
Defined.



